(** * llm-proxy: the request gate and the streaming relay of [src/index.js]

    A shallow embedding of the Worker's [handleRequest] and of the [push] loop
    it starts, together with the parts of the platform the handler calls
    (UTF-8 [TextDecoder] / [TextEncoder], [String.prototype.substring], the
    controller of a [ReadableStream], the coercions behind [!prompt] and
    [prompt.length > MAX_PROMPT_LENGTH]).

    Conventions.
    - A byte is a [Z] in [0, 255]; a chunk ([Uint8Array]) is a [list Z].
    - A JavaScript string is its list of UTF-16 code units ([list Z]), so
      that [length] is the value of [.length].
    - An asynchronous function is modelled by what it eventually does: the
      settled result of the promise and the calls made on the way. *)

From Stdlib Require Import ZArith List Bool String Ascii Lia QArith DecimalString.
From Stdlib Require Qcanon.
Import ListNotations.
Open Scope Z_scope.

(* ================================================================== *)
(** ** JavaScript strings *)

Definition jsstring := list Z.

(** A source literal (ASCII) as a JavaScript string. *)
Definition lit (s : string) : jsstring :=
  map (fun a => Z.of_N (N_of_ascii a)) (list_ascii_of_string s).

Fixpoint jsstring_eqb (a b : jsstring) : bool :=
  match a, b with
  | [], [] => true
  | x :: a', y :: b' => (x =? y) && jsstring_eqb a' b'
  | _, _ => false
  end.

(** [s.length] *)
Definition js_length (s : jsstring) : Z := Z.of_nat (List.length s).

(** [s.substring(start, end)]: both ends are clamped to [0, s.length] and
    swapped when out of order. *)
Definition clamp (len x : Z) : Z := Z.min (Z.max x 0) len.

Definition substring (s : jsstring) (start finish : Z) : jsstring :=
  let a := clamp (js_length s) start in
  let b := clamp (js_length s) finish in
  let from := Z.min a b in
  let to := Z.max a b in
  firstn (Z.to_nat (to - from)) (skipn (Z.to_nat from) s).

(** Decimal digits of an integer, as [Number::toString] prints an integral
    Number of magnitude below 10^21. *)
Definition decimal (z : Z) : jsstring :=
  lit (NilZero.string_of_int (Z.to_int z)).

(** [sub] occurs in [s]. *)
Definition contains (sub s : jsstring) : Prop :=
  exists pre post, s = pre ++ sub ++ post.

(* ================================================================== *)
(** ** The UTF-8 decoder of [TextDecoder] (WHATWG Encoding, section 9.1)

    [new TextDecoder()] is a UTF-8 decoder in replacement mode that strips a
    leading byte order mark. *)

Record utf8_decoder := mk_utf8 {
  code_point : Z;
  bytes_seen : Z;
  bytes_needed : Z;
  lower_boundary : Z;
  upper_boundary : Z }.

Definition utf8_initial : utf8_decoder := mk_utf8 0 0 0 0x80 0xBF.

Definition REPLACEMENT : Z := 0xFFFD.

(** A byte read while no sequence is open (bytes needed is 0). *)
Definition utf8_lead (b : Z) : list Z * utf8_decoder :=
  if (0 <=? b) && (b <=? 0x7F) then ([b], utf8_initial)
  else if (0xC2 <=? b) && (b <=? 0xDF) then
    ([], mk_utf8 (Z.land b 0x1F) 0 1 0x80 0xBF)
  else if (0xE0 <=? b) && (b <=? 0xEF) then
    ([], mk_utf8 (Z.land b 0xF) 0 2
           (if b =? 0xE0 then 0xA0 else 0x80)
           (if b =? 0xED then 0x9F else 0xBF))
  else if (0xF0 <=? b) && (b <=? 0xF4) then
    ([], mk_utf8 (Z.land b 0x7) 0 3
           (if b =? 0xF0 then 0x90 else 0x80)
           (if b =? 0xF4 then 0x8F else 0xBF))
  else ([REPLACEMENT], utf8_initial).

(** One byte through the handler.  A byte outside the expected range ends
    the open sequence with an error (U+FFFD in replacement mode) and is put
    back on the queue, so it is read again by the reset decoder. *)
Definition utf8_byte (d : utf8_decoder) (b : Z) : list Z * utf8_decoder :=
  if bytes_needed d =? 0 then utf8_lead b
  else if (lower_boundary d <=? b) && (b <=? upper_boundary d) then
    let cp := Z.lor (Z.shiftl (code_point d) 6) (Z.land b 0x3F) in
    let seen := bytes_seen d + 1 in
    if seen =? bytes_needed d then ([cp], utf8_initial)
    else ([], mk_utf8 cp seen (bytes_needed d) 0x80 0xBF)
  else
    let (out, d') := utf8_lead b in (REPLACEMENT :: out, d').

Fixpoint utf8_bytes (d : utf8_decoder) (bs : list Z) : list Z * utf8_decoder :=
  match bs with
  | [] => ([], d)
  | b :: rest =>
      let (out, d') := utf8_byte d b in
      let (out', d'') := utf8_bytes d' rest in
      (out ++ out', d'')
  end.

(** End of queue, reached only when the call does not stream: an open
    sequence is an error, and bytes needed is set back to 0. *)
Definition utf8_end (d : utf8_decoder) : list Z * utf8_decoder :=
  if bytes_needed d =? 0 then ([], d)
  else ([REPLACEMENT],
        mk_utf8 (code_point d) (bytes_seen d) 0 (lower_boundary d) (upper_boundary d)).

(** A scalar value as UTF-16 code units. *)
Definition utf16_of_scalar (cp : Z) : jsstring :=
  if cp <? 0x10000 then [cp]
  else let c := cp - 0x10000 in
       [0xD800 + Z.shiftr c 10; 0xDC00 + Z.land c 0x3FF].

Definition utf16_of_scalars (cps : list Z) : jsstring :=
  flat_map utf16_of_scalar cps.

Record TextDecoder := mk_decoder {
  decoder : utf8_decoder;
  BOM_seen : bool;
  do_not_flush : bool }.

(** [new TextDecoder()] *)
Definition new_TextDecoder : TextDecoder := mk_decoder utf8_initial false false.

(** "serialize I/O queue": the first scalar value ever produced is dropped
    when it is U+FEFF. *)
Definition serialize (seen : bool) (cps : list Z) : list Z * bool :=
  match cps with
  | [] => ([], seen)
  | c :: rest => if seen then (cps, true)
                 else if c =? 0xFEFF then (rest, true) else (cps, true)
  end.

(** [textDecoder.decode(input, { stream })] *)
Definition TextDecoder_decode (td : TextDecoder) (input : list Z) (stream : bool)
  : jsstring * TextDecoder :=
  let td0 := if do_not_flush td then td else mk_decoder utf8_initial false false in
  let (out, d) := utf8_bytes (decoder td0) input in
  let (tail, d') := if stream then ([], d) else utf8_end d in
  let (cps, seen) := serialize (BOM_seen td0) (out ++ tail) in
  (utf16_of_scalars cps, mk_decoder d' seen stream).

(* ================================================================== *)
(** ** [TextEncoder.encode] *)

Definition is_high_surrogate (c : Z) : bool := (0xD800 <=? c) && (c <=? 0xDBFF).
Definition is_low_surrogate (c : Z) : bool := (0xDC00 <=? c) && (c <=? 0xDFFF).

(** Conversion of a string to scalar values: a surrogate pair is one scalar
    value, a lone surrogate becomes U+FFFD. *)
Fixpoint scalars_of_utf16 (s : jsstring) : list Z :=
  match s with
  | [] => []
  | c :: rest =>
      if is_high_surrogate c then
        match rest with
        | d :: rest' =>
            if is_low_surrogate d
            then (0x10000 + Z.shiftl (c - 0xD800) 10 + (d - 0xDC00)) :: scalars_of_utf16 rest'
            else REPLACEMENT :: scalars_of_utf16 rest
        | [] => [REPLACEMENT]
        end
      else if is_low_surrogate c then REPLACEMENT :: scalars_of_utf16 rest
      else c :: scalars_of_utf16 rest
  end.

Definition utf8_encode_scalar (cp : Z) : list Z :=
  if cp <=? 0x7F then [cp]
  else if cp <=? 0x7FF then
    [Z.lor 0xC0 (Z.shiftr cp 6); Z.lor 0x80 (Z.land cp 0x3F)]
  else if cp <=? 0xFFFF then
    [Z.lor 0xE0 (Z.shiftr cp 12);
     Z.lor 0x80 (Z.land (Z.shiftr cp 6) 0x3F);
     Z.lor 0x80 (Z.land cp 0x3F)]
  else
    [Z.lor 0xF0 (Z.shiftr cp 18);
     Z.lor 0x80 (Z.land (Z.shiftr cp 12) 0x3F);
     Z.lor 0x80 (Z.land (Z.shiftr cp 6) 0x3F);
     Z.lor 0x80 (Z.land cp 0x3F)].

(** [textEncoder.encode(s)] *)
Definition TextEncoder_encode (s : jsstring) : list Z :=
  flat_map utf8_encode_scalar (scalars_of_utf16 s).

(* ================================================================== *)
(** ** Configuration (lines 1-11 of the source)

    The source holds these as module constants; they are gathered in a record
    so that a scenario can run the same handler under other limits. *)

Record Config := mk_config {
  ALLOWED_ORIGIN : jsstring;
  MAX_PROMPT_LENGTH : Z;
  MAX_RESPONSE_LENGTH : Z;
  OPENAI_API_URL : jsstring;
  OPENAI_API_KEY : jsstring }.

(** The constants as written in the source; the key is a binding of the
    Worker's environment. *)
Definition source_config (key : jsstring) : Config :=
  mk_config (lit "https://koomen.dev") 1000 5000
            (lit "https://api.openai.com/v1/responses") key.

(* ================================================================== *)
(** ** Exceptions and the upstream body *)

Inductive exn :=
| TypeError (why : string)
| Thrown (tag : nat).    (* a value rejected by the platform: network or read failure *)

(** How the upstream body ends once its chunks are delivered: [reader.read()]
    resolves with [done], rejects, or never settles. *)
Inductive Ending :=
| EndOfStream
| ReadFails (e : exn)
| Stalls.

Record UpstreamBody := mk_body {
  chunks : list (list Z);
  ending : Ending }.

(* ================================================================== *)
(** ** The relay stream: [new ReadableStream({ start })] (lines 83-116) *)

Inductive StreamState :=
| Readable
| Closed
| Errored (e : exn).

(** The variables captured by [push] and the stream its controller drives.
    [enqueued] lists the chunks handed to [controller.enqueue], oldest first;
    [reads] counts the calls of [reader.read()]. *)
Record Relay := mk_relay {
  totalLength : Z;
  textDecoder : TextDecoder;
  reads : nat;
  enqueued : list (list Z);
  state : StreamState }.

Definition new_Relay : Relay := mk_relay 0 new_TextDecoder 0 [] Readable.

(** [controller.enqueue(chunk)] and [controller.close()] throw a TypeError
    unless the stream is readable ([None]); [controller.error(e)] does nothing
    once the stream has left the readable state. *)
Definition controller_enqueue (chunk : list Z) (r : Relay) : option Relay :=
  match state r with
  | Readable =>
      Some (mk_relay (totalLength r) (textDecoder r) (reads r)
                     (enqueued r ++ [chunk]) (state r))
  | _ => None
  end.

Definition controller_close (r : Relay) : option Relay :=
  match state r with
  | Readable =>
      Some (mk_relay (totalLength r) (textDecoder r) (reads r) (enqueued r) Closed)
  | _ => None
  end.

Definition controller_error (e : exn) (r : Relay) : Relay :=
  match state r with
  | Readable => mk_relay (totalLength r) (textDecoder r) (reads r) (enqueued r) (Errored e)
  | _ => r
  end.

(** Lines 110-112: an exception thrown in the [try] block leaves the
    variables as they were when it was thrown and is handed to
    [controller.error]. *)
Definition catch (attempt : option Relay) (thrown_at : Relay) : Relay :=
  match attempt with
  | Some r => r
  | None => controller_error (TypeError "stream is not readable") thrown_at
  end.

(** [await reader.read()] is issued. *)
Definition reader_read (r : Relay) : Relay :=
  mk_relay (totalLength r) (textDecoder r) (S (reads r)) (enqueued r) (state r).

(** Lines 98-109: the body of [push] once [reader.read()] has resolved with
    a chunk [value].  The boolean tells whether [push()] is called again. *)
Definition on_chunk (cfg : Config) (value : list Z) (r : Relay) : Relay * bool :=
  let (chunkText, td) := TextDecoder_decode (textDecoder r) value true in
  let r1 := mk_relay (totalLength r) td (reads r) (enqueued r) (state r) in
  if totalLength r1 + js_length chunkText >? MAX_RESPONSE_LENGTH cfg then
    let allowed := MAX_RESPONSE_LENGTH cfg - totalLength r1 in
    let trimmed := substring chunkText 0 allowed in
    match controller_enqueue (TextEncoder_encode trimmed) r1 with
    | Some r2 => (catch (controller_close r2) r2, false)
    | None => (catch None r1, false)
    end
  else
    let r2 := mk_relay (totalLength r1 + js_length chunkText) td (reads r1)
                       (enqueued r1) (state r1) in
    match controller_enqueue value r2 with
    | Some r3 => (r3, true)
    | None => (catch None r2, false)
    end.

(** Lines 90-113: [push], run against what the upstream reader delivers. *)
Fixpoint push (cfg : Config) (upstream : list (list Z)) (fin : Ending) (r : Relay) : Relay :=
  match upstream with
  | value :: rest =>
      let (r', again) := on_chunk cfg value (reader_read r) in
      if again then push cfg rest fin r' else r'
  | [] =>
      match fin with
      | EndOfStream => catch (controller_close (reader_read r)) (reader_read r)
      | ReadFails e => controller_error e (reader_read r)
      | Stalls => reader_read r
      end
  end.

(** Lines 84-115: [start(controller)].  [openaiResponse.body] is [null] for
    a response without a body, and [null.getReader()] throws inside the
    asynchronous [start], which errors the stream. *)
Definition start (cfg : Config) (body : option UpstreamBody) : Relay :=
  match body with
  | None => controller_error (TypeError "body is null") new_Relay
  | Some b => push cfg (chunks b) (ending b) new_Relay
  end.

(** Line 83: [const { readable } = new ReadableStream({...})].  A
    [ReadableStream] has the property [locked] and the methods [cancel],
    [getReader], [pipeThrough], [pipeTo], [tee] and [values]; it has no
    property [readable] (that name belongs to a [TransformStream]), so the
    destructuring binds [readable] to [undefined], here [None]. *)
Definition ReadableStream_properties : list string :=
  ["locked"; "cancel"; "getReader"; "pipeThrough"; "pipeTo"; "tee"; "values"]%string.

Definition destructure_readable (s : Relay) : option Relay :=
  if existsb (String.eqb "readable") ReadableStream_properties then Some s else None.

(* ================================================================== *)
(** ** Values produced by [request.json()] *)

Set Warnings "-register-all".

(** A parsed JSON text.  A Number is held by its exact rational value;
    the fields of an object are in source order, a later duplicate key
    overriding an earlier one as [JSON.parse] does.  [VUndefined] is the
    result of reading a property that is not there. *)
Inductive Value :=
| VUndefined
| VNull
| VBool (b : bool)
| VNum (q : Q)
| VStr (s : jsstring)
| VArr (items : list Value)
| VObj (fields : list (jsstring * Value)).

(** The result of [ToNumber]. *)
Inductive number :=
| NaN
| Infinity (negative : bool)
| Finite (q : Q).

Fixpoint own_property (fields : list (jsstring * Value)) (k : jsstring) : option Value :=
  match fields with
  | [] => None
  | (k', v) :: rest =>
      match own_property rest k with
      | Some w => Some w
      | None => if jsstring_eqb k' k then Some v else None
      end
  end.

(** [let { prompt } = body] (line 48).  Destructuring [null] or [undefined]
    throws; a primitive, an array or an object without the key gives
    [undefined].  [None] stands for the TypeError. *)
Definition get_prompt (body : Value) : option Value :=
  match body with
  | VUndefined | VNull => None
  | VObj fields =>
      match own_property fields (lit "prompt") with
      | Some v => Some v
      | None => Some VUndefined
      end
  | _ => Some VUndefined
  end.

(** [prompt.length]: the number of code units of a string, the number of
    elements of an array, the own property [length] of an object if it has
    one; Numbers and Booleans have none. *)
Definition get_length (prompt : Value) : option Value :=
  match prompt with
  | VUndefined | VNull => None
  | VStr s => Some (VNum (inject_Z (js_length s)))
  | VArr items => Some (VNum (inject_Z (Z.of_nat (List.length items))))
  | VObj fields =>
      match own_property fields (lit "length") with
      | Some v => Some v
      | None => Some VUndefined
      end
  | VBool _ | VNum _ => Some VUndefined
  end.

(** [ToBoolean], behind [!prompt]. *)
Definition ToBoolean (v : Value) : bool :=
  match v with
  | VUndefined | VNull => false
  | VBool b => b
  | VNum q => negb (Qeq_bool q 0)
  | VStr s => match s with [] => false | _ => true end
  | VArr _ | VObj _ => true
  end.

Section Engine.

(** Two conversions of the engine are taken as given: [StringToNumber]
    (the numeric value of a string, with its rounding) and the digits that
    [Number::toString] prints for a Number that is not a small integer. *)
Variable StringToNumber : jsstring -> number.
Variable FractionToString : Q -> jsstring.

Definition Number_toString (q : Q) : jsstring :=
  let r := Qred q in
  if (Z.pos (Qden r) =? 1) && (Z.abs (Qnum r) <? 10 ^ 21)
  then decimal (Qnum r) else FractionToString q.

(** [ToString], as a template literal and [Array.prototype.join] apply it.
    An object parsed from JSON has no callable [toString] of its own: it
    prints through [Object.prototype.toString] unless an own property
    [toString] hides that method, in which case the conversion throws
    ([None]). *)
Fixpoint ToString (v : Value) : option jsstring :=
  let fix join (items : list Value) : option jsstring :=
    match items with
    | [] => Some []
    | x :: rest =>
        match (match x with
               | VUndefined | VNull => Some []
               | _ => ToString x
               end) with
        | None => None
        | Some s =>
            match rest with
            | [] => Some s
            | _ => match join rest with
                   | None => None
                   | Some t => Some (s ++ lit "," ++ t)
                   end
            end
        end
    end in
  match v with
  | VUndefined => Some (lit "undefined")
  | VNull => Some (lit "null")
  | VBool b => Some (lit (if b then "true" else "false"))
  | VNum q => Some (Number_toString q)
  | VStr s => Some s
  | VArr items => join items
  | VObj fields =>
      match own_property fields (lit "toString") with
      | Some _ => None
      | None => Some (lit "[object Object]")
      end
  end.

(** [ToNumber] after [ToPrimitive] with hint number. *)
Definition ToNumber (v : Value) : option number :=
  match v with
  | VUndefined => Some NaN
  | VNull => Some (Finite 0)
  | VBool b => Some (Finite (if b then 1 else 0))
  | VNum q => Some (Finite q)
  | VStr s => Some (StringToNumber s)
  | VArr _ =>
      match ToString v with
      | Some s => Some (StringToNumber s)
      | None => None
      end
  | VObj _ =>
      match ToString v with
      | Some _ => Some NaN      (* "[object Object]" is not numeric *)
      | None => None
      end
  end.

(** [v > m] for an integer [m]. *)
Definition greater_than (v : Value) (m : Z) : option bool :=
  match ToNumber v with
  | None => None
  | Some NaN => Some false
  | Some (Infinity negative) => Some (negb negative)
  | Some (Finite q) => Some (negb (Qle_bool q (inject_Z m)))
  end.

(* ================================================================== *)
(** ** Requests, responses and the upstream call *)

Record Request := mk_request {
  origin_header : option jsstring;   (* request.headers.get("Origin") *)
  method : jsstring;                 (* request.method *)
  json : option Value }.             (* request.json(); None when it rejects *)

Inductive BodyInit :=
| NoBody
| Text (s : jsstring)
| Stream (s : Relay).

Record Response := mk_response {
  status : Z;
  headers : list (jsstring * jsstring);
  body : BodyInit }.

(** The arguments of [fetch]; [fetch_body] is the object handed to
    [JSON.stringify]. *)
Record FetchCall := mk_fetch {
  fetch_url : jsstring;
  fetch_method : jsstring;
  fetch_headers : list (jsstring * jsstring);
  fetch_body : Value }.

Inductive FetchOutcome :=
| NetworkFailure (e : exn)
| Responds (upstream_status : Z) (upstream_body : option UpstreamBody).

(** [openaiResponse.ok] *)
Definition ok (upstream_status : Z) : bool :=
  (200 <=? upstream_status) && (upstream_status <=? 299).

Inductive Result :=
| Returns (r : Response)
| Rejects (e : exn).

(** What one call of [handleRequest] does: how its promise settles, whether
    the request body was read, the calls of [fetch], and the stream it
    created with the state that stream reaches. *)
Record Outcome := mk_outcome {
  result : Result;
  body_read : bool;
  fetches : list FetchCall;
  relay : option Relay }.

Definition plain (st : Z) (text : string) : Result :=
  Returns (mk_response st [] (Text (lit text))).

(** [origin !== ALLOWED_ORIGIN], where [origin] is [null] or a string. *)
Definition strict_neq (origin : option jsstring) (allowed : jsstring) : bool :=
  match origin with
  | None => true
  | Some o => negb (jsstring_eqb o allowed)
  end.

(** Lines 18-125. *)
Definition handleRequest (cfg : Config) (fetch : FetchCall -> FetchOutcome)
  (request : Request) : Outcome :=
  let origin := origin_header request in
  if strict_neq origin (ALLOWED_ORIGIN cfg) then
    mk_outcome (plain 403 "Forbidden") false [] None
  else if jsstring_eqb (method request) (lit "OPTIONS") then
    mk_outcome
      (Returns (mk_response 200
         [(lit "Access-Control-Allow-Origin", ALLOWED_ORIGIN cfg);
          (lit "Access-Control-Allow-Methods", lit "POST, OPTIONS");
          (lit "Access-Control-Allow-Headers", lit "Content-Type, Authorization")]
         NoBody))
      false [] None
  else if negb (jsstring_eqb (method request) (lit "POST")) then
    mk_outcome (plain 405 "Method Not Allowed") false [] None
  else
    match json request with
    | None => mk_outcome (plain 400 "Bad Request: Invalid JSON") true [] None
    | Some body =>
    match get_prompt body with
    | None => mk_outcome (Rejects (TypeError "cannot destructure")) true [] None
    | Some prompt =>
    if negb (ToBoolean prompt) then
      mk_outcome (plain 400 "Bad Request: Missing prompt") true [] None
    else
    match get_length prompt with
    | None => mk_outcome (Rejects (TypeError "cannot read length")) true [] None
    | Some len =>
    match greater_than len (MAX_PROMPT_LENGTH cfg) with
    | None => mk_outcome (Rejects (TypeError "cannot convert to primitive")) true [] None
    | Some true =>
        match ToString len with
        | None => mk_outcome (Rejects (TypeError "cannot convert to primitive")) true [] None
        | Some shown =>
            mk_outcome
              (Returns (mk_response 400 []
                 (Text (lit "Bad Request: Max prompt length exceeded ("
                        ++ shown ++ lit ">" ++ decimal (MAX_PROMPT_LENGTH cfg)))))
              true [] None
        end
    | Some false =>
        let openaiPayload := VObj [(lit "prompt", prompt); (lit "stream", VBool true)] in
        let call :=
          mk_fetch (OPENAI_API_URL cfg) (lit "POST")
            [(lit "Content-Type", lit "application/json");
             (lit "Authorization", lit "Bearer " ++ OPENAI_API_KEY cfg)]
            openaiPayload in
        match fetch call with
        | NetworkFailure e => mk_outcome (Rejects e) true [call] None
        | Responds upstream_status upstream_body =>
            if negb (ok upstream_status) then
              mk_outcome (plain 500 "Error from OpenAI API") true [call] None
            else
              let stream := start cfg upstream_body in
              let readable := destructure_readable stream in
              mk_outcome
                (Returns (mk_response 200
                   [(lit "Content-Type", lit "application/json");
                    (lit "Access-Control-Allow-Origin", ALLOWED_ORIGIN cfg)]
                   (match readable with
                    | Some s => Stream s
                    | None => NoBody       (* new Response(undefined, ...) *)
                    end)))
                true [call] (Some stream)
        end
    end end end end.

(** How a response body ends for the client. *)
Inductive Delivery :=
| Complete
| Aborted (e : exn)
| Unfinished.

(** The bytes of a response body and how it ends.  A string body is sent
    UTF-8 encoded; a stream delivers what was enqueued on it and ends as the
    stream does. *)
Definition client_receives (r : Result) : option (list Z * Delivery) :=
  match r with
  | Rejects _ => None
  | Returns resp =>
      match body resp with
      | NoBody => Some ([], Complete)
      | Text s => Some (TextEncoder_encode s, Complete)
      | Stream s =>
          Some (List.concat (enqueued s),
                match state s with
                | Closed => Complete
                | Errored e => Aborted e
                | Readable => Unfinished
                end)
      end
  end.

End Engine.

(* ================================================================== *)
(** ** Vocabulary of the properties *)

(** The text [push] obtains from a chunk, and the decoder it leaves. *)
Definition chunk_text (td : TextDecoder) (value : list Z) : jsstring :=
  fst (TextDecoder_decode td value true).

Definition decoder_after (td : TextDecoder) (value : list Z) : TextDecoder :=
  snd (TextDecoder_decode td value true).

(** Total decoded length of a sequence of chunks, the decoder being carried
    from one chunk to the next. *)
Fixpoint decoded_length (td : TextDecoder) (upstream : list (list Z)) : Z :=
  match upstream with
  | [] => 0
  | value :: rest =>
      js_length (chunk_text td value) + decoded_length (decoder_after td value) rest
  end.

Fixpoint decoder_after_all (td : TextDecoder) (upstream : list (list Z)) : TextDecoder :=
  match upstream with
  | [] => td
  | value :: rest => decoder_after_all (decoder_after td value) rest
  end.

(** The state a stream reaches when its source ends with [fin]. *)
Definition state_at_end (fin : Ending) : StreamState :=
  match fin with
  | EndOfStream => Closed
  | ReadFails e => Errored e
  | Stalls => Readable
  end.

(** The relay while it waits for more: the upstream has delivered
    [received] so far and the next read has not settled. *)
Definition relay_after (cfg : Config) (received : list (list Z)) : Relay :=
  push cfg received Stalls new_Relay.

(** The chunk part of [push]: the state after the chunks, and whether the
    loop is still running. *)
Fixpoint pump (cfg : Config) (upstream : list (list Z)) (r : Relay) : Relay * bool :=
  match upstream with
  | [] => (r, true)
  | value :: rest =>
      let (r', again) := on_chunk cfg value (reader_read r) in
      if again then pump cfg rest r' else (r', false)
  end.

(** The last step of [push]: the read that finds the upstream at its end. *)
Definition at_end (fin : Ending) (r : Relay) : Relay :=
  match fin with
  | EndOfStream => catch (controller_close (reader_read r)) (reader_read r)
  | ReadFails e => controller_error e (reader_read r)
  | Stalls => reader_read r
  end.

(** A scalar value: a code point that is not a surrogate. *)
Definition is_scalar (cp : Z) : bool :=
  (0 <=? cp) && (cp <=? 0x10FFFF) && negb ((0xD800 <=? cp) && (cp <=? 0xDFFF)).

(** The byte order mark cannot be dropped from the next decoded text:
    either the character is not U+FEFF or the decoder has already produced
    output in this stream. *)
Definition keeps_character (td : TextDecoder) (cp : Z) : bool :=
  negb (cp =? 0xFEFF) || (do_not_flush td && BOM_seen td).

(** The decoder holds no unfinished sequence: it is fresh, or its last call
    ended on a character boundary. *)
Definition no_open_sequence (td : TextDecoder) : bool :=
  negb (do_not_flush td) || (bytes_needed (decoder td) =? 0).

(* ================================================================== *)
(** ** Scenarios *)

(** The limits of the scenarios: at most 10 code units of prompt and 10 of
    response. *)
Definition scenario_config : Config :=
  mk_config (lit "https://koomen.dev") 10 10
            (lit "https://api.openai.com/v1/responses") (lit "sk-test").

(** Scenario C: the upstream emits "abcde", "fghij", "klmno" and ends. *)
Definition scenario_C : UpstreamBody :=
  mk_body [lit "abcde"; lit "fghij"; lit "klmno"] EndOfStream.

(** U+1F600, whose encoding F0 9F 98 80 arrives cut in the middle. *)
Definition split_emoji : list (list Z) := [[0xF0; 0x9F]; [0x98; 0x80]].

(** The scenarios convert no string to a Number and print no fraction; these
    two stand for the engine there. *)
Definition no_numeric_string (s : jsstring) : number := NaN.
Definition no_fraction (q : Q) : jsstring := [].

Definition post (prompt : Value) : Request :=
  mk_request (Some (lit "https://koomen.dev")) (lit "POST")
             (Some (VObj [(lit "prompt", prompt)])).

(** Scenario A: the prompt "hello"; scenario B: the prompt "hello world!". *)
Definition scenario_A : Request := post (VStr (lit "hello")).
Definition scenario_B : Request := post (VStr (lit "hello world!")).

(** An upstream that answers 200 with the given body. *)
Definition answers (b : UpstreamBody) (call : FetchCall) : FetchOutcome :=
  Responds 200 (Some b).


(* ================================================================== *)
(** ** Parts of the handler's outcomes *)

(** The response to a preflight request (lines 26-32). *)
Definition preflight (cfg : Config) : Response :=
  mk_response 200
    [(lit "Access-Control-Allow-Origin", ALLOWED_ORIGIN cfg);
     (lit "Access-Control-Allow-Methods", lit "POST, OPTIONS");
     (lit "Access-Control-Allow-Headers", lit "Content-Type, Authorization")]
    NoBody.

(** The call [handleRequest] makes for a prompt (lines 60-74). *)
Definition upstream_call (cfg : Config) (prompt : Value) : FetchCall :=
  mk_fetch (OPENAI_API_URL cfg) (lit "POST")
    [(lit "Content-Type", lit "application/json");
     (lit "Authorization", lit "Bearer " ++ OPENAI_API_KEY cfg)]
    (VObj [(lit "prompt", prompt); (lit "stream", VBool true)]).



(** The body of the response to an oversized prompt (line 55). *)
Definition too_long (shown : jsstring) (cfg : Config) : jsstring :=
  lit "Bad Request: Max prompt length exceeded ("
  ++ shown ++ lit ">" ++ decimal (MAX_PROMPT_LENGTH cfg).

(* ================================================================== *)
(** ** Further vocabulary *)

(** A chunk or a text made of ASCII only. *)
Definition is_ascii (v : list Z) : bool :=
  forallb (fun b => (0 <=? b) && (b <=? 0x7F)) v.

(** The decoded text of a chunk, the bytes it leaves unfinished aside, does
    not begin with a byte order mark the decoder would drop. *)
Definition first_is_not_BOM (cps : list Z) : bool :=
  match cps with
  | c :: _ => negb (c =? 0xFEFF)
  | [] => true
  end.

(** The same configuration with another credential. *)
Definition with_key (cfg : Config) (key : jsstring) : Config :=
  mk_config (ALLOWED_ORIGIN cfg) (MAX_PROMPT_LENGTH cfg) (MAX_RESPONSE_LENGTH cfg)
            (OPENAI_API_URL cfg) key.

(** The value of a header of a response, if it carries it. *)
Fixpoint get_header (name : jsstring) (hs : list (jsstring * jsstring)) : option jsstring :=
  match hs with
  | [] => None
  | (n, v) :: rest => if jsstring_eqb n name then Some v else get_header name rest
  end.

(* ================================================================== *)
(** ** Strings and bit arithmetic *)

Lemma jsstring_eqb_eq (a b : jsstring) : jsstring_eqb a b = true <-> a = b.
Proof.
  revert b; induction a as [|x a IH]; intros [|y b]; simpl; split; intros H;
    try reflexivity; try discriminate.
  - apply andb_true_iff in H as [Hx Hab].
    apply Z.eqb_eq in Hx; apply IH in Hab; congruence.
  - injection H as -> ->. rewrite Z.eqb_refl; simpl. now apply IH.
Qed.

Lemma jsstring_eqb_refl (a : jsstring) : jsstring_eqb a a = true.
Proof. now apply jsstring_eqb_eq. Qed.

Lemma js_length_nonneg (s : jsstring) : 0 <= js_length s.
Proof. unfold js_length; lia. Qed.

Lemma substring_prefix (s : jsstring) (n : Z) :
  0 <= n -> substring s 0 n = firstn (Z.to_nat n) s.
Proof.
  intros Hn. unfold substring, clamp.
  pose proof (js_length_nonneg s) as Hl.
  replace (Z.min (Z.max 0 0) (js_length s)) with 0 by lia.
  replace (Z.max n 0) with n by lia.
  replace (Z.min 0 (Z.min n (js_length s))) with 0 by lia.
  replace (Z.max 0 (Z.min n (js_length s))) with (Z.min n (js_length s)) by lia.
  rewrite Z.sub_0_r. change (Z.to_nat 0) with 0%nat. rewrite skipn_O.
  destruct (Z.le_gt_cases n (js_length s)) as [Hle|Hgt].
  - now rewrite Z.min_l by lia.
  - rewrite Z.min_r by lia. unfold js_length in *.
    rewrite Nat2Z.id, firstn_all. symmetry. apply firstn_all2. lia.
Qed.

Lemma small_bits_above (y n m : Z) : 0 <= y < 2 ^ n -> n <= m -> Z.testbit y m = false.
Proof.
  intros [Hy0 Hy] Hm.
  destruct (Z.eq_dec y 0) as [->|Hne]; [apply Z.bits_0|].
  apply Z.bits_above_log2; [lia|].
  assert (Z.log2 y < n) by (apply Z.log2_lt_pow2; lia). lia.
Qed.

(** Bits put above the low [n] bits of a small number add up. *)
Lemma lor_shiftl_small (a y n : Z) :
  0 <= n -> 0 <= y < 2 ^ n -> Z.lor (Z.shiftl a n) y = a * 2 ^ n + y.
Proof.
  intros Hn Hy.
  assert (Hland : Z.land (Z.shiftl a n) y = 0).
  { apply Z.bits_inj'; intros m Hm. rewrite Z.land_spec, Z.bits_0.
    destruct (Z.lt_ge_cases m n) as [Hlt|Hge].
    - now rewrite Z.shiftl_spec_low.
    - rewrite (small_bits_above y n m) by lia. apply andb_false_r. }
  rewrite <- Z.lxor_lor by exact Hland.
  rewrite <- Z.add_nocarry_lxor by exact Hland.
  now rewrite Z.shiftl_mul_pow2.
Qed.

Lemma land_low (b n : Z) : 0 <= n -> Z.land b (Z.ones n) = b mod 2 ^ n.
Proof. intros; now apply Z.land_ones. Qed.

Lemma lor_lead (lead y n : Z) :
  0 <= n -> 0 <= y < 2 ^ n -> Z.lor (lead * 2 ^ n) y = lead * 2 ^ n + y.
Proof.
  intros Hn Hy. rewrite <- (lor_shiftl_small lead y n Hn Hy).
  now rewrite Z.shiftl_mul_pow2.
Qed.

Lemma mod64_bound (x : Z) : 0 <= x mod 64 < 2 ^ 6.
Proof. change (2 ^ 6) with 64. apply Z.mod_pos_bound; lia. Qed.

Lemma continuation_value (a b : Z) :
  Z.lor (Z.shiftl a 6) (Z.land b 0x3F) = a * 64 + b mod 64.
Proof.
  change 0x3F with (Z.ones 6). rewrite land_low by lia.
  change (2 ^ 6) with 64.
  now rewrite lor_shiftl_small by (auto using mod64_bound; lia).
Qed.

Lemma encode2 (cp : Z) : 0x80 <= cp <= 0x7FF ->
  utf8_encode_scalar cp = [0xC0 + cp / 64; 0x80 + cp mod 64].
Proof.
  intros H. unfold utf8_encode_scalar.
  destruct (Z.leb_spec cp 0x7F); [lia|]. destruct (Z.leb_spec cp 0x7FF); [|lia].
  change 0x3F with (Z.ones 6). rewrite land_low, Z.shiftr_div_pow2 by lia.
  change (2 ^ 6) with 64.
  assert (0 <= cp / 64 < 2 ^ 5)
    by (change (2 ^ 5) with 32; split;
        [apply Z.div_pos; lia | apply Z.div_lt_upper_bound; lia]).
  change 0xC0 with (6 * 2 ^ 5). change 0x80 with (2 * 2 ^ 6).
  now rewrite !lor_lead by (auto using mod64_bound; lia).
Qed.

Lemma encode3 (cp : Z) : 0x800 <= cp <= 0xFFFF ->
  utf8_encode_scalar cp = [0xE0 + cp / 4096; 0x80 + (cp / 64) mod 64; 0x80 + cp mod 64].
Proof.
  intros H. unfold utf8_encode_scalar.
  destruct (Z.leb_spec cp 0x7F); [lia|]. destruct (Z.leb_spec cp 0x7FF); [lia|].
  destruct (Z.leb_spec cp 0xFFFF); [|lia].
  change 0x3F with (Z.ones 6). rewrite !land_low, !Z.shiftr_div_pow2 by lia.
  change (2 ^ 6) with 64. change (2 ^ 12) with 4096.
  assert (0 <= cp / 4096 < 2 ^ 4)
    by (change (2 ^ 4) with 16; split;
        [apply Z.div_pos; lia | apply Z.div_lt_upper_bound; lia]).
  change 0xE0 with (14 * 2 ^ 4). change 0x80 with (2 * 2 ^ 6).
  now rewrite !lor_lead by (auto using mod64_bound; lia).
Qed.

Lemma encode4 (cp : Z) : 0x10000 <= cp <= 0x10FFFF ->
  utf8_encode_scalar cp =
  [0xF0 + cp / 262144; 0x80 + (cp / 4096) mod 64; 0x80 + (cp / 64) mod 64; 0x80 + cp mod 64].
Proof.
  intros H. unfold utf8_encode_scalar.
  destruct (Z.leb_spec cp 0x7F); [lia|]. destruct (Z.leb_spec cp 0x7FF); [lia|].
  destruct (Z.leb_spec cp 0xFFFF); [lia|].
  change 0x3F with (Z.ones 6). rewrite !land_low, !Z.shiftr_div_pow2 by lia.
  change (2 ^ 6) with 64. change (2 ^ 12) with 4096. change (2 ^ 18) with 262144.
  assert (0 <= cp / 262144 < 2 ^ 3)
    by (change (2 ^ 3) with 8; split;
        [apply Z.div_pos; lia | apply Z.div_lt_upper_bound; lia]).
  change 0xF0 with (30 * 2 ^ 3). change 0x80 with (2 * 2 ^ 6).
  now rewrite !lor_lead by (auto using mod64_bound; lia).
Qed.

(* ================================================================== *)
(** ** The decoder on a character cut in two *)

Ltac dlia := Z.div_mod_to_equations; lia.

Ltac tests :=
  repeat match goal with
         | |- context [Z.leb ?a ?b] => destruct (Z.leb_spec a b); try lia
         | |- context [Z.eqb ?a ?b] => destruct (Z.eqb_spec a b); try lia
         end.

Lemma bytes_step (d : utf8_decoder) (b : Z) (rest : list Z) :
  utf8_bytes d (b :: rest) =
  (fst (utf8_byte d b) ++ fst (utf8_bytes (snd (utf8_byte d b)) rest),
   snd (utf8_bytes (snd (utf8_byte d b)) rest)).
Proof.
  change (utf8_bytes d (b :: rest))
    with (let (out, d') := utf8_byte d b in
          let (out', d'') := utf8_bytes d' rest in (out ++ out', d'')).
  destruct (utf8_byte d b) as [out d']; cbn [fst snd].
  now destruct (utf8_bytes d' rest).
Qed.

Lemma lead_byte (d : utf8_decoder) (b : Z) :
  bytes_needed d = 0 -> utf8_byte d b = utf8_lead b.
Proof. intros H. unfold utf8_byte. now rewrite H. Qed.

Lemma lead2 (b : Z) : 0xC2 <= b <= 0xDF ->
  utf8_lead b = ([], mk_utf8 (b mod 32) 0 1 0x80 0xBF).
Proof.
  intros H. unfold utf8_lead. change 0x1F with (Z.ones 5).
  rewrite land_low by lia. tests. reflexivity.
Qed.

Lemma lead3 (b : Z) : 0xE0 <= b <= 0xEF ->
  utf8_lead b = ([], mk_utf8 (b mod 16) 0 2
                       (if b =? 0xE0 then 0xA0 else 0x80)
                       (if b =? 0xED then 0x9F else 0xBF)).
Proof.
  intros H. unfold utf8_lead. change 0xF with (Z.ones 4).
  rewrite land_low by lia.
  destruct (Z.leb_spec 0 b); [|lia]. destruct (Z.leb_spec b 0x7F); [lia|].
  destruct (Z.leb_spec 0xC2 b); [|lia]. destruct (Z.leb_spec b 0xDF); [lia|].
  destruct (Z.leb_spec 0xE0 b); [|lia]. destruct (Z.leb_spec b 0xEF); [|lia].
  reflexivity.
Qed.

Lemma lead4 (b : Z) : 0xF0 <= b <= 0xF4 ->
  utf8_lead b = ([], mk_utf8 (b mod 8) 0 3
                       (if b =? 0xF0 then 0x90 else 0x80)
                       (if b =? 0xF4 then 0x8F else 0xBF)).
Proof.
  intros H. unfold utf8_lead. change 0x7 with (Z.ones 3).
  rewrite land_low by lia.
  destruct (Z.leb_spec 0 b); [|lia]. destruct (Z.leb_spec b 0x7F); [lia|].
  destruct (Z.leb_spec 0xC2 b); [|lia]. destruct (Z.leb_spec b 0xDF); [lia|].
  destruct (Z.leb_spec 0xE0 b); [|lia]. destruct (Z.leb_spec b 0xEF); [lia|].
  destruct (Z.leb_spec 0xF0 b); [|lia]. destruct (Z.leb_spec b 0xF4); [|lia].
  reflexivity.
Qed.

Lemma continuation_more (a seen n lo hi b : Z) :
  n <> 0 -> seen + 1 <> n -> lo <= b <= hi ->
  utf8_byte (mk_utf8 a seen n lo hi) b =
  ([], mk_utf8 (a * 64 + b mod 64) (seen + 1) n 0x80 0xBF).
Proof.
  intros Hn Hs Hb. unfold utf8_byte; cbn [bytes_needed lower_boundary upper_boundary
                                           code_point bytes_seen].
  rewrite continuation_value. tests. reflexivity.
Qed.

Lemma continuation_last (a seen n lo hi b : Z) :
  n <> 0 -> seen + 1 = n -> lo <= b <= hi ->
  utf8_byte (mk_utf8 a seen n lo hi) b = ([a * 64 + b mod 64], utf8_initial).
Proof.
  intros Hn Hs Hb. unfold utf8_byte; cbn [bytes_needed lower_boundary upper_boundary
                                           code_point bytes_seen].
  rewrite continuation_value. tests. reflexivity.
Qed.

Ltac side :=
  cbn [bytes_needed];
  repeat match goal with
         | |- context [Z.eqb ?a ?b] => destruct (Z.eqb_spec a b)
         end;
  dlia.

Ltac walk :=
  repeat (first
            [ rewrite bytes_step
            | rewrite (lead_byte utf8_initial) by reflexivity
            | rewrite lead2 by side
            | rewrite lead3 by side
            | rewrite lead4 by side
            | rewrite continuation_last by side
            | rewrite continuation_more by side ];
          cbn [fst snd app utf8_bytes]).

Lemma split_character (cp : Z) (k : nat) :
  is_scalar cp = true -> 0x80 <= cp ->
  (0 < k < List.length (utf8_encode_scalar cp))%nat ->
  let first := utf8_bytes utf8_initial (firstn k (utf8_encode_scalar cp)) in
  fst first = []
  /\ bytes_needed (snd first) <> 0
  /\ utf8_bytes (snd first) (skipn k (utf8_encode_scalar cp)) = ([cp], utf8_initial).
Proof.
  unfold is_scalar. intros Hs Hmulti Hk.
  apply andb_true_iff in Hs as [Hrange Hsur].
  apply andb_true_iff in Hrange as [H0 Hmax].
  apply Z.leb_le in H0, Hmax.
  assert (Hnot : ~ (0xD800 <= cp <= 0xDFFF)).
  { intros [Ha Hb]. apply Z.leb_le in Ha, Hb. rewrite Ha, Hb in Hsur. discriminate. }
  clear Hsur. cbv zeta.
  destruct (Z.le_gt_cases cp 0x7FF) as [H2|H2];
    [| destruct (Z.le_gt_cases cp 0xFFFF) as [H3|H3]].
  - rewrite encode2 in * by lia. cbn [List.length] in Hk.
    destruct k as [|[|k]]; try lia.
    cbn [firstn skipn]. walk.
    split; [reflexivity | split; [discriminate | f_equal; f_equal; dlia]].
  - rewrite encode3 in * by lia. cbn [List.length] in Hk.
    destruct k as [|[|[|k]]]; try lia; cbn [firstn skipn]; walk;
      (split; [reflexivity | split; [discriminate | f_equal; f_equal; dlia]]).
  - rewrite encode4 in * by lia. cbn [List.length] in Hk.
    destruct k as [|[|[|[|k]]]]; try lia; cbn [firstn skipn]; walk;
      (split; [reflexivity | split; [discriminate | f_equal; f_equal; dlia]]).
Qed.

(* ================================================================== *)
(** ** The relay loop *)

Lemma on_chunk_forward (cfg : Config) (value : list Z) (r : Relay) :
  state r = Readable ->
  totalLength r + js_length (chunk_text (textDecoder r) value) <= MAX_RESPONSE_LENGTH cfg ->
  on_chunk cfg value r =
  (mk_relay (totalLength r + js_length (chunk_text (textDecoder r) value))
            (decoder_after (textDecoder r) value) (reads r)
            (enqueued r ++ [value]) Readable, true).
Proof.
  unfold on_chunk, chunk_text, decoder_after, controller_enqueue.
  destruct (TextDecoder_decode (textDecoder r) value true) as [text td]; cbn.
  intros Hs H. rewrite Hs.
  destruct (Z.gtb_spec (totalLength r + js_length text) (MAX_RESPONSE_LENGTH cfg));
    [lia | reflexivity].
Qed.

Lemma on_chunk_truncate (cfg : Config) (value : list Z) (r : Relay) :
  state r = Readable ->
  totalLength r + js_length (chunk_text (textDecoder r) value) > MAX_RESPONSE_LENGTH cfg ->
  on_chunk cfg value r =
  (mk_relay (totalLength r) (decoder_after (textDecoder r) value) (reads r)
            (enqueued r ++
             [TextEncoder_encode
                (substring (chunk_text (textDecoder r) value) 0
                           (MAX_RESPONSE_LENGTH cfg - totalLength r))])
            Closed, false).
Proof.
  unfold on_chunk, chunk_text, decoder_after, controller_enqueue.
  destruct (TextDecoder_decode (textDecoder r) value true) as [text td]; cbn.
  intros Hs H. rewrite Hs.
  destruct (Z.gtb_spec (totalLength r + js_length text) (MAX_RESPONSE_LENGTH cfg));
    [reflexivity | lia].
Qed.

(** The counter after a chunk, whatever the state of the stream: the
    assignment on line 107 precedes the call that may throw. *)
Lemma on_chunk_counter (cfg : Config) (value : list Z) (r : Relay) :
  totalLength (fst (on_chunk cfg value r)) =
  if totalLength r + js_length (chunk_text (textDecoder r) value) >? MAX_RESPONSE_LENGTH cfg
  then totalLength r
  else totalLength r + js_length (chunk_text (textDecoder r) value).
Proof.
  unfold on_chunk, chunk_text, controller_enqueue, controller_close, catch,
    controller_error.
  destruct (TextDecoder_decode (textDecoder r) value true) as [text td]; cbn.
  destruct (totalLength r + js_length text >? MAX_RESPONSE_LENGTH cfg);
    now destruct (state r).
Qed.

Lemma on_chunk_decoder (cfg : Config) (value : list Z) (r : Relay) :
  textDecoder (fst (on_chunk cfg value r)) = decoder_after (textDecoder r) value.
Proof.
  unfold on_chunk, decoder_after, controller_enqueue, controller_close, catch,
    controller_error.
  destruct (TextDecoder_decode (textDecoder r) value true) as [text td]; cbn.
  destruct (totalLength r + js_length text >? MAX_RESPONSE_LENGTH cfg);
    now destruct (state r).
Qed.

Lemma push_pump (cfg : Config) (upstream : list (list Z)) (fin : Ending) (r : Relay) :
  push cfg upstream fin r =
  let (r', again) := pump cfg upstream r in if again then at_end fin r' else r'.
Proof.
  revert r; induction upstream as [|value rest IH]; intros r.
  - now destruct fin.
  - cbn [push pump]. destruct (on_chunk cfg value (reader_read r)) as [r' [|]];
      [apply IH | reflexivity].
Qed.

Lemma pump_app (cfg : Config) (p q : list (list Z)) (r : Relay) :
  pump cfg (p ++ q) r =
  let (r', again) := pump cfg p r in if again then pump cfg q r' else (r', false).
Proof.
  revert r; induction p as [|value rest IH]; intros r; [reflexivity|].
  cbn [app pump]. destruct (on_chunk cfg value (reader_read r)) as [r' [|]];
    [apply IH | reflexivity].
Qed.

Lemma decoded_length_nonneg (td : TextDecoder) (upstream : list (list Z)) :
  0 <= decoded_length td upstream.
Proof.
  revert td; induction upstream as [|value rest IH]; intros td; cbn; [lia|].
  specialize (IH (decoder_after td value)).
  pose proof (js_length_nonneg (chunk_text td value)). lia.
Qed.

(** While the budget is not exceeded every chunk is passed on as it came. *)
Lemma pump_within_cap (cfg : Config) (upstream : list (list Z)) (r : Relay) :
  state r = Readable ->
  totalLength r + decoded_length (textDecoder r) upstream <= MAX_RESPONSE_LENGTH cfg ->
  pump cfg upstream r =
  (mk_relay (totalLength r + decoded_length (textDecoder r) upstream)
            (decoder_after_all (textDecoder r) upstream)
            (reads r + List.length upstream)
            (enqueued r ++ upstream) Readable, true).
Proof.
  revert r; induction upstream as [|value rest IH]; intros r Hs H.
  - cbn. rewrite Z.add_0_r, Nat.add_0_r, app_nil_r, <- Hs. now destruct r.
  - cbn [pump decoded_length decoder_after_all] in *.
    pose proof (decoded_length_nonneg (decoder_after (textDecoder r) value) rest).
    rewrite on_chunk_forward by (cbn; (assumption || lia)).
    cbn [reader_read textDecoder totalLength reads enqueued state].
    rewrite IH by (cbn; (reflexivity || lia)). cbn.
    rewrite <- app_assoc, Z.add_assoc, Nat.add_succ_r. reflexivity.
Qed.

Lemma pump_counter (cfg : Config) (upstream : list (list Z)) (r : Relay) :
  0 <= totalLength r <= MAX_RESPONSE_LENGTH cfg ->
  totalLength r <= totalLength (fst (pump cfg upstream r)) <= MAX_RESPONSE_LENGTH cfg.
Proof.
  revert r; induction upstream as [|value rest IH]; intros r H; cbn [pump fst]; [lia|].
  pose proof (js_length_nonneg (chunk_text (textDecoder (reader_read r)) value)) as Hlen.
  pose proof (on_chunk_counter cfg value (reader_read r)) as Hc.
  destruct (on_chunk cfg value (reader_read r)) as [r' again]. cbn [fst] in Hc.
  change (totalLength (reader_read r)) with (totalLength r) in Hc.
  destruct (Z.gtb_spec (totalLength r
                        + js_length (chunk_text (textDecoder (reader_read r)) value))
                       (MAX_RESPONSE_LENGTH cfg)).
  - destruct again; cbn [fst]; [|lia]. specialize (IH r'). lia.
  - destruct again; cbn [fst]; [|lia]. specialize (IH r'). lia.
Qed.

Lemma at_end_counter (fin : Ending) (r : Relay) :
  totalLength (at_end fin r) = totalLength r.
Proof.
  destruct fin; cbn; try reflexivity;
    unfold catch, controller_close, controller_error; cbn; now destruct (state r).
Qed.

Lemma at_end_decoder (fin : Ending) (r : Relay) :
  textDecoder (at_end fin r) = textDecoder r.
Proof.
  destruct fin; cbn; try reflexivity;
    unfold catch, controller_close, controller_error; cbn; now destruct (state r).
Qed.

Lemma push_counter (cfg : Config) (upstream : list (list Z)) (fin : Ending) (r : Relay) :
  totalLength (push cfg upstream fin r) = totalLength (fst (pump cfg upstream r)).
Proof.
  rewrite push_pump. destruct (pump cfg upstream r) as [r' [|]]; cbn [fst];
    [apply at_end_counter | reflexivity].
Qed.

Lemma push_decoder (cfg : Config) (upstream : list (list Z)) (fin : Ending) (r : Relay) :
  textDecoder (push cfg upstream fin r) = textDecoder (fst (pump cfg upstream r)).
Proof.
  rewrite push_pump. destruct (pump cfg upstream r) as [r' [|]]; cbn [fst];
    [apply at_end_decoder | reflexivity].
Qed.

(** X1.  A relay that stays within the budget passes every chunk on unchanged,
    reads each chunk once and then once more, and ends as the upstream
    ends: closed at end of stream, errored with the error of a failed read,
    still readable while the upstream stalls. *)
Theorem relay_within_cap (cfg : Config) (upstream : list (list Z)) (fin : Ending) :
  decoded_length new_TextDecoder upstream <= MAX_RESPONSE_LENGTH cfg ->
  let s := push cfg upstream fin new_Relay in
  enqueued s = upstream
  /\ state s = state_at_end fin
  /\ reads s = S (List.length upstream)
  /\ totalLength s = decoded_length new_TextDecoder upstream
  /\ textDecoder s = decoder_after_all new_TextDecoder upstream.
Proof.
  intros H. cbv zeta. rewrite push_pump, pump_within_cap by (cbn; (reflexivity || lia)).
  destruct fin; cbn; repeat split; reflexivity.
Qed.

Lemma relay_within_cap_witness :
  decoded_length new_TextDecoder [lit "abc"; lit "de"] <= 5000
  /\ enqueued (push (source_config []) [lit "abc"; lit "de"] EndOfStream new_Relay)
     = [lit "abc"; lit "de"].
Proof.
  split; [vm_compute; discriminate|].
  apply (relay_within_cap (source_config []) [lit "abc"; lit "de"] EndOfStream).
  vm_compute; discriminate.
Defined.

(** C9.  Throughout a relay session the counter [totalLength] never
    decreases and never exceeds [MAX_RESPONSE_LENGTH]; a chunk adds either its
    whole decoded length or nothing; how the upstream ends does not touch the
    counter.  [before] and [after] are the relay before and after one more
    chunk arrives. *)
Theorem counter_monotone_bounded (cfg : Config) (received : list (list Z))
  (value : list Z) (fin : Ending) :
  0 <= MAX_RESPONSE_LENGTH cfg ->
  let before := relay_after cfg received in
  let after := relay_after cfg (received ++ [value]) in
  0 <= totalLength before <= MAX_RESPONSE_LENGTH cfg
  /\ totalLength before <= totalLength after <= MAX_RESPONSE_LENGTH cfg
  /\ (totalLength after = totalLength before
      \/ totalLength after
         = totalLength before + js_length (chunk_text (textDecoder before) value))
  /\ totalLength (push cfg received fin new_Relay) = totalLength before.
Proof.
  intros Hcap. cbv zeta. unfold relay_after.
  rewrite !push_counter, push_decoder, pump_app.
  assert (Hnew : 0 <= totalLength new_Relay <= MAX_RESPONSE_LENGTH cfg) by (cbn; lia).
  pose proof (pump_counter cfg received new_Relay Hnew) as Hr.
  destruct (pump cfg received new_Relay) as [r again]; cbn [fst] in *.
  change (totalLength new_Relay) with 0 in Hr.
  destruct again; cbn [fst]; [|repeat split; lia].
  pose proof (js_length_nonneg (chunk_text (textDecoder r) value)) as Hlen.
  cbn [pump]. pose proof (on_chunk_counter cfg value (reader_read r)) as Hc.
  destruct (on_chunk cfg value (reader_read r)) as [r' again]. cbn [fst] in Hc.
  change (totalLength (reader_read r)) with (totalLength r) in Hc.
  change (textDecoder (reader_read r)) with (textDecoder r) in Hc.
  assert (Hfst : totalLength (fst (if again then (r', true) else (r', false)))
                 = totalLength r') by now destruct again.
  rewrite Hfst, Hc.
  destruct (Z.gtb_spec (totalLength r + js_length (chunk_text (textDecoder r) value))
                       (MAX_RESPONSE_LENGTH cfg)); repeat split; lia.
Qed.

(** The counter in scenario C grows from the first chunk to the second and
    stays within the cap of 10. *)
Lemma counter_monotone_bounded_witness :
  0 <= MAX_RESPONSE_LENGTH scenario_config
  /\ totalLength (relay_after scenario_config [lit "abcde"])
     <= totalLength (relay_after scenario_config ([lit "abcde"] ++ [lit "fghij"]))
     <= MAX_RESPONSE_LENGTH scenario_config.
Proof.
  assert (H : 0 <= MAX_RESPONSE_LENGTH scenario_config) by (cbn; lia).
  split; [exact H|].
  exact (proj1 (proj2 (counter_monotone_bounded scenario_config [lit "abcde"]
                         (lit "fghij") EndOfStream H))).
Defined.

(** C2, as the code has it.  When the decoded length first exceeds the cap
    within a chunk [C], the stream has been handed every earlier chunk
    unchanged, then the UTF-8 encoding of the first [cap - emitted] code units
    of the text of [C], and is closed; [C] is the last chunk read, whatever
    follows it. *)
Theorem cap_boundary (cfg : Config) (earlier : list (list Z)) (C : list Z)
  (later : list (list Z)) (fin : Ending) :
  let cap := MAX_RESPONSE_LENGTH cfg in
  let emitted := decoded_length new_TextDecoder earlier in
  let text := chunk_text (decoder_after_all new_TextDecoder earlier) C in
  emitted <= cap -> emitted + js_length text > cap ->
  let s := push cfg (earlier ++ C :: later) fin new_Relay in
  enqueued s = earlier ++ [TextEncoder_encode (firstn (Z.to_nat (cap - emitted)) text)]
  /\ state s = Closed
  /\ reads s = S (List.length earlier)
  /\ totalLength s = emitted.
Proof.
  cbv zeta. intros Hle Hgt.
  rewrite push_pump, pump_app, pump_within_cap by (cbn; (reflexivity || lia)).
  cbn [pump reader_read totalLength textDecoder reads enqueued state new_Relay].
  rewrite on_chunk_truncate by (cbn; (reflexivity || lia)). cbn.
  rewrite substring_prefix by lia. repeat split; reflexivity.
Qed.

(** Scenario C on the relay: the stream is handed "abcde", "fghij" and an
    empty chunk cut from "klmno", ten bytes in all, and is closed. *)
Lemma cap_boundary_witness :
  decoded_length new_TextDecoder [lit "abcde"; lit "fghij"] <= 10
  /\ decoded_length new_TextDecoder [lit "abcde"; lit "fghij"]
     + js_length (chunk_text (decoder_after_all new_TextDecoder [lit "abcde"; lit "fghij"])
                             (lit "klmno")) > 10
  /\ enqueued (push scenario_config (chunks scenario_C) (ending scenario_C) new_Relay)
     = [lit "abcde"; lit "fghij"]
       ++ [TextEncoder_encode
             (firstn (Z.to_nat (10 - decoded_length new_TextDecoder [lit "abcde"; lit "fghij"]))
                (chunk_text (decoder_after_all new_TextDecoder [lit "abcde"; lit "fghij"])
                            (lit "klmno")))].
Proof.
  assert (H1 : decoded_length new_TextDecoder [lit "abcde"; lit "fghij"] <= 10)
    by (vm_compute; discriminate).
  assert (H2 : decoded_length new_TextDecoder [lit "abcde"; lit "fghij"]
               + js_length (chunk_text (decoder_after_all new_TextDecoder
                                          [lit "abcde"; lit "fghij"]) (lit "klmno")) > 10)
    by (vm_compute; reflexivity).
  split; [exact H1|]. split; [exact H2|].
  exact (proj1 (cap_boundary scenario_config [lit "abcde"; lit "fghij"] (lit "klmno") []
                  EndOfStream H1 H2)).
Defined.

(** C2, the counterexample.  In scenario C the relay does request the third
    chunk: it issues three reads, and it is the arrival of "klmno" that
    closes the stream; as long as the third read has not settled the stream
    stays readable. *)
Lemma third_chunk_is_read :
  reads (push scenario_config (chunks scenario_C) (ending scenario_C) new_Relay) = 3%nat
  /\ List.concat (enqueued (push scenario_config (chunks scenario_C) (ending scenario_C)
                              new_Relay)) = lit "abcdefghij"
  /\ state (push scenario_config [lit "abcde"; lit "fghij"] Stalls new_Relay) = Readable
  /\ reads (push scenario_config [lit "abcde"; lit "fghij"] Stalls new_Relay) = 3%nat.
Proof. repeat split; reflexivity. Qed.

(* ================================================================== *)
(** ** Multi-byte characters across chunk boundaries *)

Lemma bytes_from_idle (d : utf8_decoder) (bs : list Z) :
  bytes_needed d = 0 -> bs <> [] -> utf8_bytes d bs = utf8_bytes utf8_initial bs.
Proof.
  intros Hd Hbs. destruct bs as [|b rest]; [congruence|].
  now rewrite !bytes_step, !lead_byte.
Qed.

Lemma decode_split (td : TextDecoder) (cp : Z) (k : nat) :
  is_scalar cp = true -> 0x80 <= cp ->
  (0 < k < List.length (utf8_encode_scalar cp))%nat ->
  no_open_sequence td = true -> keeps_character td cp = true ->
  chunk_text td (firstn k (utf8_encode_scalar cp)) = []
  /\ chunk_text (decoder_after td (firstn k (utf8_encode_scalar cp)))
                (skipn k (utf8_encode_scalar cp)) = utf16_of_scalar cp
  /\ do_not_flush (decoder_after (decoder_after td (firstn k (utf8_encode_scalar cp)))
                                 (skipn k (utf8_encode_scalar cp))) = true.
Proof.
  intros Hs Hm Hk Hidle Hkeep.
  destruct (split_character cp k Hs Hm Hk) as (Hout & Hopen & Hrest). cbv zeta in *.
  assert (Hne : firstn k (utf8_encode_scalar cp) <> []).
  { destruct k; [lia|]. destruct (utf8_encode_scalar cp); [cbn in Hk; lia | discriminate]. }
  unfold chunk_text, decoder_after, TextDecoder_decode.
  set (td0 := if do_not_flush td then td else mk_decoder utf8_initial false false).
  assert (Hd0 : bytes_needed (decoder td0) = 0).
  { unfold no_open_sequence in Hidle. subst td0.
    destruct (do_not_flush td); cbn in *; [now apply Z.eqb_eq|reflexivity]. }
  rewrite (bytes_from_idle (decoder td0) _ Hd0 Hne).
  destruct (utf8_bytes utf8_initial (firstn k (utf8_encode_scalar cp))) as [out d1].
  cbn [fst snd] in *. subst out. cbn [app serialize utf16_of_scalars flat_map fst snd
                                        do_not_flush decoder BOM_seen].
  rewrite Hrest. cbn [app serialize].
  assert (Hser : (if BOM_seen td0 then ([cp], true)
                  else if cp =? 0xFEFF then ([], true) else ([cp], true))
                 = ([cp], true)).
  { unfold keeps_character in Hkeep. subst td0.
    destruct (do_not_flush td), (cp =? 0xFEFF); cbn in *;
      try rewrite Hkeep; try reflexivity; try discriminate.
    now destruct (BOM_seen td). }
  rewrite Hser. cbn. rewrite app_nil_r. repeat split; reflexivity.
Qed.

Lemma utf16_length (cp : Z) :
  js_length (utf16_of_scalar cp) = if cp <? 0x10000 then 1 else 2.
Proof. unfold utf16_of_scalar. now destruct (cp <? 0x10000). Qed.

(** C7, as the code has it.  One decoder is carried through the loop in
    streaming mode.  When the UTF-8 encoding of a scalar value is cut in two
    adjacent chunks, the first chunk decodes to the empty text and adds
    nothing to the counter, and the second decodes to the whole character and
    adds its UTF-16 length: 1 for a character of two or three bytes, 2 for a
    character of four bytes.  Both chunks are passed on as they came. *)
Theorem split_character_counted (cfg : Config) (r : Relay) (cp : Z) (k : nat) :
  is_scalar cp = true -> 0x80 <= cp ->
  (0 < k < List.length (utf8_encode_scalar cp))%nat ->
  state r = Readable ->
  no_open_sequence (textDecoder r) = true ->
  keeps_character (textDecoder r) cp = true ->
  totalLength r + js_length (utf16_of_scalar cp) <= MAX_RESPONSE_LENGTH cfg ->
  let bytes := utf8_encode_scalar cp in
  let r1 := fst (on_chunk cfg (firstn k bytes) r) in
  let r2 := fst (on_chunk cfg (skipn k bytes) r1) in
  chunk_text (textDecoder r) (firstn k bytes) = []
  /\ totalLength r1 = totalLength r
  /\ chunk_text (textDecoder r1) (skipn k bytes) = utf16_of_scalar cp
  /\ totalLength r2 = totalLength r + (if cp <? 0x10000 then 1 else 2)
  /\ enqueued r2 = enqueued r ++ [firstn k bytes; skipn k bytes]
  /\ do_not_flush (textDecoder r2) = true.
Proof.
  intros Hs Hm Hk Hstate Hidle Hkeep Hcap. cbv zeta.
  destruct (decode_split (textDecoder r) cp k Hs Hm Hk Hidle Hkeep) as (H1 & H2 & H3).
  pose proof (js_length_nonneg (utf16_of_scalar cp)) as Hlen.
  rewrite (on_chunk_forward cfg (firstn k (utf8_encode_scalar cp)) r)
    by (assumption || (rewrite H1; cbn; lia)).
  cbn [fst totalLength textDecoder enqueued].
  rewrite on_chunk_forward by (reflexivity || (cbn; rewrite H1, H2; cbn; lia)).
  cbn [fst totalLength textDecoder enqueued].
  rewrite H1, H2, utf16_length.
  rewrite <- app_assoc. repeat split; try reflexivity; try assumption.
  all: change (js_length []) with 0; destruct (cp <? 0x10000); lia.
Qed.

(** U+00E9 (C3 A9) cut after its first byte, at the start of a stream. *)
Lemma split_character_counted_witness :
  is_scalar 0xE9 = true /\ 0x80 <= 0xE9
  /\ (0 < 1 < List.length (utf8_encode_scalar 0xE9))%nat
  /\ totalLength (fst (on_chunk scenario_config (skipn 1 (utf8_encode_scalar 0xE9))
                         (fst (on_chunk scenario_config
                                 (firstn 1 (utf8_encode_scalar 0xE9)) new_Relay))))
     = totalLength new_Relay + (if 0xE9 <? 0x10000 then 1 else 2).
Proof.
  assert (Hk : (0 < 1 < List.length (utf8_encode_scalar 0xE9))%nat) by (cbn; lia).
  assert (Hm : 0x80 <= 0xE9) by lia.
  assert (Hcap : totalLength new_Relay + js_length (utf16_of_scalar 0xE9)
                 <= MAX_RESPONSE_LENGTH scenario_config) by (cbn; lia).
  split; [reflexivity|]. split; [exact Hm|]. split; [exact Hk|].
  exact (proj1 (proj2 (proj2 (proj2
    (split_character_counted scenario_config new_Relay 0xE9 1
       eq_refl Hm Hk eq_refl eq_refl eq_refl Hcap))))).
Defined.

(** C7, the counterexample.  U+1F600 arrives cut across two chunks and is
    counted as 2, not 1; and at the end of a stream whose last chunk stops
    inside a character the decoder is left in streaming mode with the
    sequence still open: it is not flushed. *)
Lemma split_emoji_counts_two :
  totalLength (push scenario_config split_emoji EndOfStream new_Relay) = 2
  /\ bytes_needed (decoder (textDecoder
       (push scenario_config [[0x61; 0xC3]] EndOfStream new_Relay))) = 1
  /\ do_not_flush (textDecoder
       (push scenario_config [[0x61; 0xC3]] EndOfStream new_Relay)) = true
  /\ totalLength (push scenario_config [[0x61; 0xC3]] EndOfStream new_Relay) = 1.
Proof. repeat split; reflexivity. Qed.

(** The decoder is used for the chunks and for nothing else: when the
    stream ends it is as the last streaming call left it. *)
Lemma decoder_never_flushed (cfg : Config) (upstream : list (list Z)) (fin : Ending) :
  textDecoder (push cfg upstream fin new_Relay)
  = textDecoder (relay_after cfg upstream).
Proof. unfold relay_after. now rewrite !push_decoder. Qed.

(* ================================================================== *)
(** ** The request gate *)

Section Gate.

Variable StringToNumber : jsstring -> number.
Variable FractionToString : Q -> jsstring.

Local Abbreviation handle := (handleRequest StringToNumber FractionToString).
Local Abbreviation exceeds := (greater_than StringToNumber FractionToString).
Local Abbreviation show := (ToString FractionToString).

Lemma strict_neq_true (origin : option jsstring) (allowed : jsstring) :
  strict_neq origin allowed = true <-> origin <> Some allowed.
Proof.
  destruct origin as [o|]; cbn; [|split; [discriminate | reflexivity]].
  destruct (jsstring_eqb o allowed) eqn:E; cbn.
  - apply jsstring_eqb_eq in E; subst. split; [discriminate | congruence].
  - split; [|reflexivity]. intros _ H. injection H as ->.
    now rewrite jsstring_eqb_refl in E.
Qed.

Lemma strict_neq_false (allowed : jsstring) : strict_neq (Some allowed) allowed = false.
Proof. cbn. now rewrite jsstring_eqb_refl. Qed.

Lemma jsstring_eqb_neq (a b : jsstring) : a <> b -> jsstring_eqb a b = false.
Proof.
  intros H. destruct (jsstring_eqb a b) eqn:E; [|reflexivity].
  now apply jsstring_eqb_eq in E.
Qed.

Lemma Number_toString_integer (n : Z) :
  Z.abs n < 10 ^ 21 -> Number_toString FractionToString (inject_Z n) = decimal n.
Proof.
  intros H. unfold Number_toString.
  rewrite Qcanon.Qred_identity by (cbn; apply Z.gcd_1_r). cbn [inject_Z Qnum Qden].
  destruct (Z.ltb_spec (Z.abs n) (10 ^ 21)); [reflexivity | lia].
Qed.

Lemma exceeds_integer (n m : Z) : exceeds (VNum (inject_Z n)) m = Some (m <? n).
Proof.
  unfold greater_than, ToNumber, Qle_bool; cbn. f_equal.
  rewrite !Z.mul_1_r. destruct (Z.leb_spec n m), (Z.ltb_spec m n); try reflexivity; lia.
Qed.

(** The handler once the origin, the method and the body have been
    accepted and the prompt is truthy. *)
Lemma handle_truthy (cfg : Config) (fetch : FetchCall -> FetchOutcome)
  (request : Request) (body prompt : Value) :
  origin_header request = Some (ALLOWED_ORIGIN cfg) ->
  method request = lit "POST" ->
  json request = Some body -> get_prompt body = Some prompt ->
  ToBoolean prompt = true ->
  handle cfg fetch request =
  match get_length prompt with
  | None => mk_outcome (Rejects (TypeError "cannot read length")) true [] None
  | Some len =>
      match exceeds len (MAX_PROMPT_LENGTH cfg) with
      | None => mk_outcome (Rejects (TypeError "cannot convert to primitive")) true [] None
      | Some true =>
          match show len with
          | None => mk_outcome (Rejects (TypeError "cannot convert to primitive")) true [] None
          | Some shown =>
              mk_outcome (Returns (mk_response 400 [] (Text (too_long shown cfg)))) true [] None
          end
      | Some false =>
          match fetch (upstream_call cfg prompt) with
          | NetworkFailure e => mk_outcome (Rejects e) true [upstream_call cfg prompt] None
          | Responds upstream_status upstream_body =>
              if negb (ok upstream_status)
              then mk_outcome (plain 500 "Error from OpenAI API") true
                              [upstream_call cfg prompt] None
              else mk_outcome
                     (Returns (mk_response 200
                        [(lit "Content-Type", lit "application/json");
                         (lit "Access-Control-Allow-Origin", ALLOWED_ORIGIN cfg)]
                        NoBody))
                     true [upstream_call cfg prompt]
                     (Some (start cfg upstream_body))
          end
      end
  end.
Proof.
  intros Ho Hm Hj Hp Ht. unfold handleRequest.
  rewrite Ho, strict_neq_false, Hm, Hj, Hp, Ht.
  change (jsstring_eqb (lit "POST") (lit "OPTIONS")) with false.
  change (jsstring_eqb (lit "POST") (lit "POST")) with true.
  cbn [negb]. reflexivity.
Qed.

Lemma contains_too_long_shown (shown : jsstring) (cfg : Config) :
  contains shown (too_long shown cfg).
Proof.
  exists (lit "Bad Request: Max prompt length exceeded ("),
         (lit ">" ++ decimal (MAX_PROMPT_LENGTH cfg)).
  reflexivity.
Qed.

Lemma contains_too_long_max (shown : jsstring) (cfg : Config) :
  contains (decimal (MAX_PROMPT_LENGTH cfg)) (too_long shown cfg).
Proof.
  exists (lit "Bad Request: Max prompt length exceeded (" ++ shown ++ lit ">"), [].
  unfold too_long. now rewrite app_nil_r, <- !app_assoc.
Qed.

Lemma origin_rejected (cfg : Config) (fetch : FetchCall -> FetchOutcome)
  (request : Request) :
  origin_header request <> Some (ALLOWED_ORIGIN cfg) ->
  handle cfg fetch request = mk_outcome (plain 403 "Forbidden") false [] None.
Proof.
  intros H. unfold handleRequest. apply strict_neq_true in H. now rewrite H.
Qed.

(** C3.  A request whose [Origin] header is absent or differs from the
    allowed origin is answered 403 whatever its method and body: the body is
    not read, nothing is fetched and no stream is created. *)
Theorem origin_mismatch_forbidden (cfg : Config) (fetch : FetchCall -> FetchOutcome)
  (request : Request) :
  origin_header request <> Some (ALLOWED_ORIGIN cfg) ->
  handle cfg fetch request = mk_outcome (plain 403 "Forbidden") false [] None.
Proof.
  intros Hmismatch. unfold handleRequest.
  destruct (origin_header request) as [origin|] eqn:Horigin; cbn [strict_neq].
  - destruct (jsstring_eqb origin (ALLOWED_ORIGIN cfg)) eqn:Heq; [|reflexivity].
    apply jsstring_eqb_eq in Heq. congruence.
  - reflexivity.
Qed.

(** C4.  A prompt string of length L above the maximum M is answered 400
    with a body that contains the digits of L and of M, and nothing is
    fetched; in scenario B the body is the text ending in "(12>10", with no
    closing parenthesis.  A JavaScript string has fewer than 2^53 code
    units. *)
Theorem oversized_prompt_rejected :
  (forall (cfg : Config) (fetch : FetchCall -> FetchOutcome) (request : Request)
          (body : Value) (s : jsstring),
      0 <= MAX_PROMPT_LENGTH cfg -> js_length s < 2 ^ 53 ->
      origin_header request = Some (ALLOWED_ORIGIN cfg) ->
      method request = lit "POST" ->
      json request = Some body -> get_prompt body = Some (VStr s) ->
      js_length s > MAX_PROMPT_LENGTH cfg ->
      handle cfg fetch request
      = mk_outcome
          (Returns (mk_response 400 [] (Text (too_long (decimal (js_length s)) cfg))))
          true [] None
      /\ contains (decimal (js_length s)) (too_long (decimal (js_length s)) cfg)
      /\ contains (decimal (MAX_PROMPT_LENGTH cfg)) (too_long (decimal (js_length s)) cfg))
  /\ (forall fetch : FetchCall -> FetchOutcome,
        handle scenario_config fetch scenario_B
        = mk_outcome
            (Returns (mk_response 400 []
               (Text (lit "Bad Request: Max prompt length exceeded (12>10"))))
            true [] None).
Proof.
  split; [|reflexivity].
  intros cfg fetch request body s HM Hmax Ho Hm Hj Hp HL.
  split; [|split; [apply contains_too_long_shown | apply contains_too_long_max]].
  assert (Ht : ToBoolean (VStr s) = true).
  { destruct s; [cbn in HL; lia | reflexivity]. }
  rewrite (handle_truthy cfg fetch request body (VStr s) Ho Hm Hj Hp Ht).
  cbn [get_length]. rewrite exceeds_integer.
  destruct (Z.ltb_spec (MAX_PROMPT_LENGTH cfg) (js_length s)); [|lia].
  cbn [ToString]. rewrite Number_toString_integer; [reflexivity|].
  pose proof (js_length_nonneg s). rewrite Z.abs_eq by lia.
  assert (2 ^ 53 < 10 ^ 21) by reflexivity. lia.
Qed.

(** An outcome with no fetch and no stream satisfies both implications. *)
Ltac nothing_fetched :=
  cbn; split; [intros H; now contradiction H | intros H; now contradiction H].

(** A fetch is issued only by a request that passed every check, and a
    stream is created only after a fetch. *)
Lemma fetch_needs_every_check (cfg : Config) (fetch : FetchCall -> FetchOutcome)
  (request : Request) :
  (fetches (handle cfg fetch request) <> [] ->
   origin_header request = Some (ALLOWED_ORIGIN cfg)
   /\ method request = lit "POST"
   /\ exists body prompt len,
        json request = Some body /\ get_prompt body = Some prompt
        /\ ToBoolean prompt = true /\ get_length prompt = Some len
        /\ exceeds len (MAX_PROMPT_LENGTH cfg) = Some false
        /\ fetches (handle cfg fetch request) = [upstream_call cfg prompt])
  /\ (relay (handle cfg fetch request) <> None ->
      fetches (handle cfg fetch request) <> []).
Proof.
  unfold handleRequest.
  destruct (strict_neq (origin_header request) (ALLOWED_ORIGIN cfg)) eqn:Eo;
    [nothing_fetched|].
  assert (Ho : origin_header request = Some (ALLOWED_ORIGIN cfg)).
  { destruct (origin_header request) as [o|]; [|discriminate]. cbn in Eo.
    apply negb_false_iff, jsstring_eqb_eq in Eo. now subst. }
  destruct (jsstring_eqb (method request) (lit "OPTIONS")); [nothing_fetched|].
  destruct (jsstring_eqb (method request) (lit "POST")) eqn:Em; [|nothing_fetched].
  apply jsstring_eqb_eq in Em. cbn [negb].
  destruct (json request) as [body|] eqn:Ej; [|nothing_fetched].
  destruct (get_prompt body) as [prompt|] eqn:Ep; [|nothing_fetched].
  destruct (ToBoolean prompt) eqn:Et; cbn [negb]; [|nothing_fetched].
  destruct (get_length prompt) as [len|] eqn:El; [|nothing_fetched].
  destruct (exceeds len (MAX_PROMPT_LENGTH cfg)) as [[|]|] eqn:Ee;
    [destruct (show len) | | ]; try nothing_fetched.
  fold (upstream_call cfg prompt).
  assert (Hall : forall o : Outcome,
             fetches o = [upstream_call cfg prompt] ->
             (fetches o <> [] ->
              Some (ALLOWED_ORIGIN cfg) = Some (ALLOWED_ORIGIN cfg)
              /\ method request = lit "POST"
              /\ exists body0 prompt0 len0,
                   Some body = Some body0 /\ get_prompt body0 = Some prompt0
                   /\ ToBoolean prompt0 = true /\ get_length prompt0 = Some len0
                   /\ exceeds len0 (MAX_PROMPT_LENGTH cfg) = Some false
                   /\ fetches o = [upstream_call cfg prompt0])
             /\ (relay o <> None -> fetches o <> [])).
  { intros o Hf. split.
    - intros _. split; [reflexivity|]. split; [exact Em|].
      exists body, prompt, len. now repeat split.
    - intros _. rewrite Hf. discriminate. }
  rewrite Ho.
  destruct (fetch (upstream_call cfg prompt)) as [e|st b];
    [apply Hall; reflexivity|].
  destruct (negb (ok st)); apply Hall; reflexivity.
Qed.

(** C6.  The checks run in the order origin, preflight, method, JSON,
    prompt presence, prompt length, and the first one that fails decides the
    outcome whatever the later ones would say.  None of these outcomes
    fetches or creates a stream, and the body is read only once the method is
    accepted.  A fetch is issued only by a request that passes every check,
    and a stream is created only after a fetch. *)
Theorem gate_short_circuits (cfg : Config) (fetch : FetchCall -> FetchOutcome)
  (request : Request) :
  let o := handle cfg fetch request in
  (origin_header request <> Some (ALLOWED_ORIGIN cfg) ->
     o = mk_outcome (plain 403 "Forbidden") false [] None)
  /\ (origin_header request = Some (ALLOWED_ORIGIN cfg) ->
      (method request = lit "OPTIONS" ->
         o = mk_outcome (Returns (preflight cfg)) false [] None)
      /\ (method request <> lit "OPTIONS" -> method request <> lit "POST" ->
         o = mk_outcome (plain 405 "Method Not Allowed") false [] None)
      /\ (method request = lit "POST" ->
          (json request = None ->
             o = mk_outcome (plain 400 "Bad Request: Invalid JSON") true [] None)
          /\ (forall body prompt,
                json request = Some body -> get_prompt body = Some prompt ->
                (ToBoolean prompt = false ->
                   o = mk_outcome (plain 400 "Bad Request: Missing prompt") true [] None)
                /\ (forall len shown,
                      ToBoolean prompt = true -> get_length prompt = Some len ->
                      exceeds len (MAX_PROMPT_LENGTH cfg) = Some true ->
                      show len = Some shown ->
                      o = mk_outcome
                            (Returns (mk_response 400 [] (Text (too_long shown cfg))))
                            true [] None))))
  /\ (fetches o <> [] ->
      origin_header request = Some (ALLOWED_ORIGIN cfg)
      /\ method request = lit "POST"
      /\ exists body prompt len,
           json request = Some body /\ get_prompt body = Some prompt
           /\ ToBoolean prompt = true /\ get_length prompt = Some len
           /\ exceeds len (MAX_PROMPT_LENGTH cfg) = Some false
           /\ fetches o = [upstream_call cfg prompt])
  /\ (relay o <> None -> fetches o <> []).
Proof.
  cbv zeta. split; [apply origin_rejected|].
  split; [intros Ho; split; [|split]|].
  - intros Hm. unfold handleRequest. now rewrite Ho, strict_neq_false, Hm.
  - intros H1 H2. unfold handleRequest.
    now rewrite Ho, strict_neq_false, !jsstring_eqb_neq by assumption.
  - intros Hm. split.
    + intros Hj. unfold handleRequest. now rewrite Ho, strict_neq_false, Hm, Hj.
    + intros body prompt Hj Hp. split.
      * intros Hf. unfold handleRequest.
        now rewrite Ho, strict_neq_false, Hm, Hj, Hp, Hf.
      * intros len shown Ht Hl He Hs.
        rewrite (handle_truthy cfg fetch request body prompt Ho Hm Hj Hp Ht).
        now rewrite Hl, He, Hs.
  - apply fetch_needs_every_check.
Qed.

Lemma fetched_request (cfg : Config) (fetch : FetchCall -> FetchOutcome)
  (request : Request) :
  fetches (handle cfg fetch request) <> [] ->
  exists prompt,
    fetches (handle cfg fetch request) = [upstream_call cfg prompt]
    /\ handle cfg fetch request =
       match fetch (upstream_call cfg prompt) with
       | NetworkFailure e => mk_outcome (Rejects e) true [upstream_call cfg prompt] None
       | Responds upstream_status upstream_body =>
           if negb (ok upstream_status)
           then mk_outcome (plain 500 "Error from OpenAI API") true
                           [upstream_call cfg prompt] None
           else mk_outcome
                  (Returns (mk_response 200
                     [(lit "Content-Type", lit "application/json");
                      (lit "Access-Control-Allow-Origin", ALLOWED_ORIGIN cfg)]
                     NoBody))
                  true [upstream_call cfg prompt]
                  (Some (start cfg upstream_body))
       end.
Proof.
  intros H.
  destruct (fetch_needs_every_check cfg fetch request) as (Hpass & _).
  destruct (Hpass H) as (Ho & Hm & body & prompt & len & Hj & Hp & Ht & Hl & He & Hf).
  exists prompt. split; [exact Hf|].
  rewrite (handle_truthy cfg fetch request body prompt Ho Hm Hj Hp Ht).
  now rewrite Hl, He.
Qed.


(** X2.  The response returned after a successful upstream call carries no body:
    the stream the handler created is not the one it hands to [Response], so
    the client receives an empty, complete body whatever the stream holds. *)
Theorem response_has_no_body (cfg : Config) (fetch : FetchCall -> FetchOutcome)
  (request : Request) (s : Relay) :
  relay (handle cfg fetch request) = Some s ->
  result (handle cfg fetch request)
  = Returns (mk_response 200
               [(lit "Content-Type", lit "application/json");
                (lit "Access-Control-Allow-Origin", ALLOWED_ORIGIN cfg)]
               NoBody)
  /\ client_receives (result (handle cfg fetch request)) = Some ([], Complete).
Proof.
  intros Hs.
  destruct (fetch_needs_every_check cfg fetch request) as (_ & Hrelay).
  assert (Hne : fetches (handle cfg fetch request) <> [])
    by (apply Hrelay; rewrite Hs; discriminate).
  destruct (fetched_request cfg fetch request Hne) as (prompt & _ & Hh).
  rewrite Hh in *. destruct (fetch (upstream_call cfg prompt)) as [e|st b];
    [discriminate|].
  destruct (negb (ok st)); [discriminate|]. now split.
Qed.



End Gate.

(* ================================================================== *)
(** ** The scenarios *)

(** A preflight request without an [Origin] header is answered 403. *)
Lemma origin_mismatch_forbidden_witness :
  origin_header (mk_request None (lit "OPTIONS") None)
  <> Some (ALLOWED_ORIGIN scenario_config)
  /\ handleRequest no_numeric_string no_fraction scenario_config (answers scenario_C)
       (mk_request None (lit "OPTIONS") None)
     = mk_outcome (plain 403 "Forbidden") false [] None.
Proof.
  assert (H : origin_header (mk_request None (lit "OPTIONS") None)
              <> Some (ALLOWED_ORIGIN scenario_config)) by discriminate.
  split; [exact H|].
  exact (origin_mismatch_forbidden no_numeric_string no_fraction scenario_config
           (answers scenario_C) (mk_request None (lit "OPTIONS") None) H).
Defined.

(** Scenario B through the general statement. *)
Lemma oversized_prompt_rejected_witness :
  0 <= MAX_PROMPT_LENGTH scenario_config
  /\ js_length (lit "hello world!") > MAX_PROMPT_LENGTH scenario_config
  /\ handleRequest no_numeric_string no_fraction scenario_config (answers scenario_C)
       scenario_B
     = mk_outcome
         (Returns (mk_response 400 []
            (Text (lit "Bad Request: Max prompt length exceeded (12>10"))))
         true [] None.
Proof.
  assert (HM : 0 <= MAX_PROMPT_LENGTH scenario_config) by (cbn; lia).
  assert (HL : js_length (lit "hello world!") > MAX_PROMPT_LENGTH scenario_config)
    by reflexivity.
  assert (H53 : js_length (lit "hello world!") < 2 ^ 53) by reflexivity.
  split; [exact HM|]. split; [exact HL|].
  exact (proj1 (proj1 (oversized_prompt_rejected no_numeric_string no_fraction)
                  scenario_config (answers scenario_C) scenario_B
                  (VObj [(lit "prompt", VStr (lit "hello world!"))])
                  (lit "hello world!") HM H53 eq_refl eq_refl eq_refl eq_refl HL)).
Defined.

(** An oversized prompt sent with GET: the method check answers first. *)
Lemma gate_short_circuits_witness :
  origin_header (mk_request (Some (lit "https://koomen.dev")) (lit "GET")
                   (Some (VObj [(lit "prompt", VStr (lit "hello world!"))])))
  = Some (ALLOWED_ORIGIN scenario_config)
  /\ handleRequest no_numeric_string no_fraction scenario_config (answers scenario_C)
       (mk_request (Some (lit "https://koomen.dev")) (lit "GET")
          (Some (VObj [(lit "prompt", VStr (lit "hello world!"))])))
     = mk_outcome (plain 405 "Method Not Allowed") false [] None.
Proof.
  split; [reflexivity|].
  refine (proj1 (proj2 (proj1 (proj2
            (gate_short_circuits no_numeric_string no_fraction scenario_config
               (answers scenario_C)
               (mk_request (Some (lit "https://koomen.dev")) (lit "GET")
                  (Some (VObj [(lit "prompt", VStr (lit "hello world!"))]))))) eq_refl))
            _ _); discriminate.
Defined.





(** Scenario A against an upstream that streams: a stream is created and
    the response carries no body. *)
Lemma response_has_no_body_witness :
  relay (handleRequest no_numeric_string no_fraction scenario_config (answers scenario_C)
           scenario_A)
  = Some (start scenario_config (Some scenario_C))
  /\ client_receives
       (result (handleRequest no_numeric_string no_fraction scenario_config
                  (answers scenario_C) scenario_A))
     = Some ([], Complete).
Proof.
  split; [reflexivity|].
  exact (proj2 (response_has_no_body no_numeric_string no_fraction scenario_config
                  (answers scenario_C) scenario_A
                  (start scenario_config (Some scenario_C)) eq_refl)).
Defined.

(** C1 on the code.  Under the limits of the source, the upstream answers
    the prompt "hello" with the single chunk "abc" and ends.  The relay stream
    holds "abc" and is closed, but the response was built from the property
    [readable] of that stream, which does not exist: the client receives an
    empty body. *)
Lemma upstream_body_not_delivered :
  option_map enqueued
    (relay (handleRequest no_numeric_string no_fraction (source_config (lit "sk-test"))
              (answers (mk_body [lit "abc"] EndOfStream)) scenario_A))
  = Some [lit "abc"]
  /\ option_map state
       (relay (handleRequest no_numeric_string no_fraction (source_config (lit "sk-test"))
                 (answers (mk_body [lit "abc"] EndOfStream)) scenario_A))
     = Some Closed
  /\ client_receives
       (result (handleRequest no_numeric_string no_fraction (source_config (lit "sk-test"))
                  (answers (mk_body [lit "abc"] EndOfStream)) scenario_A))
     = Some ([], Complete).
Proof. repeat split; reflexivity. Qed.

(** C8 on the code.  The upstream delivers "abc" and its next read fails.
    The relay stream is errored with that error after two reads, none
    repeated; but the client, whose response carries no body, receives the
    same empty complete body as when the stream is closed at the cap. *)
Lemma read_error_not_observed :
  option_map state
    (relay (handleRequest no_numeric_string no_fraction scenario_config
              (answers (mk_body [lit "abc"] (ReadFails (Thrown 7)))) scenario_A))
  = Some (Errored (Thrown 7))
  /\ option_map reads
       (relay (handleRequest no_numeric_string no_fraction scenario_config
                 (answers (mk_body [lit "abc"] (ReadFails (Thrown 7)))) scenario_A))
     = Some 2%nat
  /\ client_receives
       (result (handleRequest no_numeric_string no_fraction scenario_config
                  (answers (mk_body [lit "abc"] (ReadFails (Thrown 7)))) scenario_A))
     = Some ([], Complete)
  /\ client_receives
       (result (handleRequest no_numeric_string no_fraction scenario_config
                  (answers scenario_C) scenario_A))
     = Some ([], Complete).
Proof. repeat split; reflexivity. Qed.

(* ================================================================== *)
(** ** Whole characters and ASCII through the codec *)

Lemma utf8_bytes_app (d : utf8_decoder) (p q : list Z) :
  utf8_bytes d (p ++ q) =
  (fst (utf8_bytes d p) ++ fst (utf8_bytes (snd (utf8_bytes d p)) q),
   snd (utf8_bytes (snd (utf8_bytes d p)) q)).
Proof.
  revert d; induction p as [|b p IH]; intros d.
  - cbn [app utf8_bytes fst snd]. now destruct (utf8_bytes d q).
  - rewrite <- app_comm_cons, !bytes_step, IH. cbn [fst snd].
    now rewrite app_assoc.
Qed.

Lemma lead_ascii (b : Z) : 0 <= b <= 0x7F -> utf8_lead b = ([b], utf8_initial).
Proof. intros H. unfold utf8_lead. tests. reflexivity. Qed.

Lemma utf8_bytes_ascii (v : list Z) :
  is_ascii v = true -> utf8_bytes utf8_initial v = (v, utf8_initial).
Proof.
  induction v as [|b v IH]; intros H; [reflexivity|].
  cbn [is_ascii forallb] in H. apply andb_true_iff in H as [Hb Hv].
  apply andb_true_iff in Hb as [H0 H1]. apply Z.leb_le in H0, H1.
  rewrite bytes_step, (lead_byte utf8_initial) by reflexivity.
  rewrite lead_ascii by lia. cbn [fst snd]. now rewrite (IH Hv).
Qed.

Lemma utf16_ascii (v : list Z) : is_ascii v = true -> utf16_of_scalars v = v.
Proof.
  induction v as [|b v IH]; intros H; [reflexivity|].
  cbn [is_ascii forallb] in H. apply andb_true_iff in H as [Hb Hv].
  apply andb_true_iff in Hb as [H0 H1]. apply Z.leb_le in H0, H1.
  unfold utf16_of_scalars in *. cbn [flat_map]. rewrite (IH Hv).
  unfold utf16_of_scalar. destruct (Z.ltb_spec b 0x10000); [reflexivity | lia].
Qed.

Lemma serialize_ascii (seen : bool) (v : list Z) :
  is_ascii v = true -> fst (serialize seen v) = v.
Proof.
  destruct v as [|b v]; intros H; [reflexivity|].
  cbn [is_ascii forallb] in H. apply andb_true_iff in H as [Hb _].
  apply andb_true_iff in Hb as [H0 H1]. apply Z.leb_le in H0, H1.
  cbn [serialize]. destruct seen; [reflexivity|].
  destruct (Z.eqb_spec b 0xFEFF); [lia | reflexivity].
Qed.

Lemma decode_ascii (td : TextDecoder) (v : list Z) :
  decoder td = utf8_initial -> is_ascii v = true ->
  chunk_text td v = v /\ decoder (decoder_after td v) = utf8_initial.
Proof.
  intros Hd Hv. unfold chunk_text, decoder_after, TextDecoder_decode.
  assert (Hd0 : decoder (if do_not_flush td then td
                         else mk_decoder utf8_initial false false) = utf8_initial)
    by now destruct (do_not_flush td).
  rewrite Hd0, (utf8_bytes_ascii v Hv), app_nil_r.
  pose proof (serialize_ascii
                (BOM_seen (if do_not_flush td then td
                           else mk_decoder utf8_initial false false)) v Hv) as Hser.
  destruct (serialize _ v) as [cps seen]. cbn [fst snd decoder] in *. subst cps.
  split; [now apply utf16_ascii | reflexivity].
Qed.

Lemma scalars_ascii (v : list Z) : is_ascii v = true -> scalars_of_utf16 v = v.
Proof.
  induction v as [|b v IH]; intros H; [reflexivity|].
  cbn [is_ascii forallb] in H. apply andb_true_iff in H as [Hb Hv].
  apply andb_true_iff in Hb as [H0 H1]. apply Z.leb_le in H0, H1.
  cbn [scalars_of_utf16]. unfold is_high_surrogate, is_low_surrogate.
  destruct (Z.leb_spec 0xD800 b); [lia|]. destruct (Z.leb_spec 0xDC00 b); [lia|].
  cbn [andb]. now rewrite (IH Hv).
Qed.

Lemma encode_ascii (v : list Z) : is_ascii v = true -> TextEncoder_encode v = v.
Proof.
  intros H. unfold TextEncoder_encode. rewrite (scalars_ascii v H).
  induction v as [|b v IH]; [reflexivity|].
  cbn [is_ascii forallb] in H. apply andb_true_iff in H as [Hb Hv].
  apply andb_true_iff in Hb as [H0 H1]. apply Z.leb_le in H0, H1.
  cbn [flat_map]. rewrite (IH Hv). unfold utf8_encode_scalar.
  destruct (Z.leb_spec b 0x7F); [reflexivity | lia].
Qed.

Lemma is_ascii_firstn (n : nat) (v : list Z) :
  is_ascii v = true -> is_ascii (firstn n v) = true.
Proof.
  revert n; induction v as [|b v IH]; intros [|n] H; try reflexivity.
  cbn [is_ascii forallb firstn] in *. apply andb_true_iff in H as [Hb Hv].
  rewrite Hb. cbn [andb]. now apply IH.
Qed.

Lemma is_ascii_app (p q : list Z) :
  is_ascii (p ++ q) = is_ascii p && is_ascii q.
Proof. unfold is_ascii. apply forallb_app. Qed.

Lemma js_length_app (a b : jsstring) : js_length (a ++ b) = js_length a + js_length b.
Proof. unfold js_length. rewrite length_app. lia. Qed.

Lemma concat_snoc (A : Type) (ls : list (list A)) (l : list A) :
  List.concat (ls ++ [l]) = List.concat ls ++ l.
Proof. rewrite concat_app. cbn. now rewrite app_nil_r. Qed.

Lemma push_ascii (cfg : Config) (upstream : list (list Z)) (fin : Ending) (r : Relay) :
  decoder (textDecoder r) = utf8_initial -> state r = Readable ->
  0 <= totalLength r <= MAX_RESPONSE_LENGTH cfg ->
  forallb is_ascii upstream = true ->
  List.concat (enqueued (push cfg upstream fin r))
  = List.concat (enqueued r)
    ++ firstn (Z.to_nat (MAX_RESPONSE_LENGTH cfg - totalLength r)) (List.concat upstream)
  /\ state (push cfg upstream fin r)
     = if totalLength r + js_length (List.concat upstream) >? MAX_RESPONSE_LENGTH cfg
       then Closed else state_at_end fin.
Proof.
  revert r; induction upstream as [|value rest IH]; intros r Hd Hs Ht Ha.
  - cbn [push List.concat]. rewrite firstn_nil, app_nil_r.
    change (js_length []) with 0. rewrite Z.add_0_r.
    destruct (Z.gtb_spec (totalLength r) (MAX_RESPONSE_LENGTH cfg)); [lia|].
    destruct fin; unfold catch, controller_close, controller_error; cbn; rewrite Hs;
      cbn; now split.
  - cbn [forallb] in Ha. apply andb_true_iff in Ha as [Hv Hrest].
    destruct (decode_ascii (textDecoder r) value Hd Hv) as [Htext Hdec].
    cbn [push List.concat]. rewrite js_length_app.
    pose proof (js_length_nonneg value) as Hlen.
    pose proof (js_length_nonneg (List.concat rest)) as Hlen'.
    destruct (Z.le_gt_cases (totalLength r + js_length value) (MAX_RESPONSE_LENGTH cfg))
      as [Hle|Hgt].
    + rewrite on_chunk_forward by (cbn; rewrite ?Htext; (assumption || lia)).
      cbn [reader_read textDecoder totalLength]. rewrite Htext.
      match goal with |- context [push cfg rest fin ?r'] =>
        destruct (IH r') as [Hout Hstate];
          [exact Hdec | reflexivity | cbn; lia | exact Hrest |] end.
      rewrite Hout, Hstate. cbn [enqueued totalLength reader_read].
      rewrite concat_snoc, <- app_assoc, firstn_app.
      rewrite (firstn_all2 value) by (unfold js_length in *; lia).
      replace (Z.to_nat (MAX_RESPONSE_LENGTH cfg - totalLength r) - List.length value)%nat
        with (Z.to_nat (MAX_RESPONSE_LENGTH cfg - (totalLength r + js_length value)))
        by (unfold js_length; lia).
      rewrite Z.add_assoc. now split.
    + rewrite on_chunk_truncate by (cbn; rewrite ?Htext; (assumption || lia)).
      cbn [reader_read textDecoder totalLength enqueued state]. rewrite Htext.
      rewrite substring_prefix by lia.
      rewrite encode_ascii by now apply is_ascii_firstn.
      rewrite concat_snoc, firstn_app.
      replace (Z.to_nat (MAX_RESPONSE_LENGTH cfg - totalLength r) - List.length value)%nat
        with 0%nat by (unfold js_length in *; lia).
      rewrite firstn_O, app_nil_r.
      destruct (Z.gtb_spec (totalLength r + (js_length value + js_length (List.concat rest)))
                           (MAX_RESPONSE_LENGTH cfg)); [now split | lia].
Qed.

(** X3.  On an upstream made of ASCII only the relay is a byte cap: the
    chunks enqueued on the stream, put end to end, are the first
    [MAX_RESPONSE_LENGTH] bytes of the upstream, and the stream is closed as
    soon as the upstream holds more than that, whatever happens to the
    upstream afterwards; otherwise it ends as the upstream ends. *)
Theorem ascii_relay_prefix (cfg : Config) (upstream : list (list Z)) (fin : Ending) :
  0 <= MAX_RESPONSE_LENGTH cfg ->
  forallb is_ascii upstream = true ->
  List.concat (enqueued (push cfg upstream fin new_Relay))
  = firstn (Z.to_nat (MAX_RESPONSE_LENGTH cfg)) (List.concat upstream)
  /\ state (push cfg upstream fin new_Relay)
     = if js_length (List.concat upstream) >? MAX_RESPONSE_LENGTH cfg
       then Closed else state_at_end fin.
Proof.
  intros Hcap Ha.
  destruct (push_ascii cfg upstream fin new_Relay) as [Hout Hstate];
    try reflexivity; try assumption; [cbn; lia|].
  cbn [new_Relay enqueued totalLength List.concat app] in Hout, Hstate.
  rewrite Z.sub_0_r in Hout. now split.
Qed.

(** The relay of scenario C cut at 7 bytes, the upstream failing later. *)
Lemma ascii_relay_prefix_witness :
  0 <= MAX_RESPONSE_LENGTH (mk_config [] 10 7 [] [])
  /\ forallb is_ascii [lit "abcde"; lit "fghij"] = true
  /\ List.concat (enqueued (push (mk_config [] 10 7 [] []) [lit "abcde"; lit "fghij"]
                              (ReadFails (Thrown 1)) new_Relay))
     = firstn (Z.to_nat (MAX_RESPONSE_LENGTH (mk_config [] 10 7 [] [])))
              (List.concat [lit "abcde"; lit "fghij"]).
Proof.
  assert (H : 0 <= MAX_RESPONSE_LENGTH (mk_config [] 10 7 [] [])) by (cbn; lia).
  split; [exact H|]. split; [reflexivity|].
  exact (proj1 (ascii_relay_prefix (mk_config [] 10 7 [] []) [lit "abcde"; lit "fghij"]
                  (ReadFails (Thrown 1)) H eq_refl)).
Defined.

(* ================================================================== *)
(** ** How a session ends *)

Lemma first_exceeding_chunk (td : TextDecoder) (upstream : list (list Z)) (budget : Z) :
  0 <= budget -> decoded_length td upstream > budget ->
  exists earlier C later,
    upstream = earlier ++ C :: later
    /\ decoded_length td earlier <= budget
    /\ decoded_length td earlier
       + js_length (chunk_text (decoder_after_all td earlier) C) > budget.
Proof.
  revert td budget; induction upstream as [|value rest IH]; intros td budget Hb H.
  - cbn in H. lia.
  - cbn [decoded_length] in H.
    pose proof (js_length_nonneg (chunk_text td value)) as Hlen.
    destruct (Z.le_gt_cases (js_length (chunk_text td value)) budget) as [Hle|Hgt].
    + destruct (IH (decoder_after td value) (budget - js_length (chunk_text td value)))
        as (earlier & C & later & Hup & He & HC); [lia | lia |].
      exists (value :: earlier), C, later. subst rest.
      cbn [decoded_length decoder_after_all app]. split; [reflexivity | split; lia].
    + exists [], value, rest. cbn [decoded_length decoder_after_all app].
      split; [reflexivity | split; lia].
Qed.

(** X4.  Every session of the relay ends in one of two ways.  While the
    decoded length stays within the cap the stream ends as the upstream ends;
    once it exceeds the cap the stream is closed, and a later failure of the
    upstream is never reported.  In both cases some number [n] of chunks has
    gone through unchanged and in order, at most one more chunk has been
    enqueued after them, and the reader has been called [n + 1] times: no
    read is repeated and none is issued after the stream is closed. *)
Theorem relay_ends (cfg : Config) (upstream : list (list Z)) (fin : Ending) :
  0 <= MAX_RESPONSE_LENGTH cfg ->
  state (push cfg upstream fin new_Relay)
  = (if decoded_length new_TextDecoder upstream >? MAX_RESPONSE_LENGTH cfg
     then Closed else state_at_end fin)
  /\ exists n,
       (n <= List.length upstream)%nat
       /\ reads (push cfg upstream fin new_Relay) = S n
       /\ firstn n (enqueued (push cfg upstream fin new_Relay)) = firstn n upstream
       /\ (List.length (enqueued (push cfg upstream fin new_Relay)) <= S n)%nat.
Proof.
  intros Hcap.
  destruct (Z.gtb_spec (decoded_length new_TextDecoder upstream) (MAX_RESPONSE_LENGTH cfg))
    as [Hgt|Hle].
  - destruct (first_exceeding_chunk new_TextDecoder upstream (MAX_RESPONSE_LENGTH cfg))
      as (earlier & C & later & Hup & He & HC); [lia | lia |]. subst upstream.
    rewrite push_pump, pump_app, pump_within_cap by (cbn; (reflexivity || lia)).
    cbn [pump reader_read totalLength textDecoder reads enqueued state new_Relay].
    rewrite on_chunk_truncate by (cbn; (reflexivity || lia)).
    cbn [reader_read state reads enqueued totalLength textDecoder fst snd].
    match goal with |- context [TextEncoder_encode ?t] =>
      generalize (TextEncoder_encode t); intros trimmed end.
    cbn [app]. split; [reflexivity|].
    exists (List.length earlier). rewrite !length_app. cbn [List.length].
    split; [lia|]. split; [cbn; lia|]. split; [|lia].
    rewrite !firstn_app, !Nat.sub_diag, !firstn_all. reflexivity.
  - rewrite push_pump, pump_within_cap by (cbn; (reflexivity || lia)).
    split; [destruct fin; reflexivity|].
    exists (List.length upstream).
    assert (Hsame : forall r : Relay,
               reads r = List.length upstream -> enqueued r = upstream ->
               reads (at_end fin r) = S (List.length upstream)
               /\ enqueued (at_end fin r) = upstream).
    { intros r Hr He. destruct fin; unfold at_end, catch, controller_close,
        controller_error; cbn; destruct (state r); cbn; now rewrite ?Hr, ?He. }
    match goal with |- context [at_end fin ?r] =>
      destruct (Hsame r) as [Hreads Henq]; [reflexivity | reflexivity |] end.
    rewrite Hreads, Henq. repeat split; lia.
Qed.

(** In scenario C the stream is closed at the cap although the upstream
    fails afterwards. *)
Lemma relay_ends_witness :
  0 <= MAX_RESPONSE_LENGTH scenario_config
  /\ state (push scenario_config (chunks scenario_C) (ReadFails (Thrown 1)) new_Relay)
     = (if decoded_length new_TextDecoder (chunks scenario_C)
           >? MAX_RESPONSE_LENGTH scenario_config
        then Closed else state_at_end (ReadFails (Thrown 1))).
Proof.
  assert (H : 0 <= MAX_RESPONSE_LENGTH scenario_config) by (cbn; lia).
  split; [exact H|].
  exact (proj1 (relay_ends scenario_config (chunks scenario_C) (ReadFails (Thrown 1)) H)).
Defined.

(* ================================================================== *)
(** ** Round trips of the codec *)

Lemma utf8_whole (cp : Z) :
  is_scalar cp = true ->
  utf8_bytes utf8_initial (utf8_encode_scalar cp) = ([cp], utf8_initial).
Proof.
  unfold is_scalar. intros Hs.
  apply andb_true_iff in Hs as [Hrange Hsur].
  apply andb_true_iff in Hrange as [H0 Hmax].
  apply Z.leb_le in H0, Hmax.
  assert (Hnot : ~ (0xD800 <= cp <= 0xDFFF)).
  { intros [Ha Hb]. apply Z.leb_le in Ha, Hb. rewrite Ha, Hb in Hsur. discriminate. }
  clear Hsur.
  destruct (Z.le_gt_cases cp 0x7F) as [H1|H1];
    [| destruct (Z.le_gt_cases cp 0x7FF) as [H2|H2];
       [| destruct (Z.le_gt_cases cp 0xFFFF) as [H3|H3]]].
  - unfold utf8_encode_scalar. destruct (Z.leb_spec cp 0x7F); [|lia].
    rewrite bytes_step, (lead_byte utf8_initial) by reflexivity.
    now rewrite lead_ascii by lia.
  - rewrite encode2 by lia. walk. f_equal; f_equal; dlia.
  - rewrite encode3 by lia. walk. f_equal; f_equal; dlia.
  - rewrite encode4 by lia. walk. f_equal; f_equal; dlia.
Qed.

Lemma utf8_round_trip (cps : list Z) :
  forallb is_scalar cps = true ->
  utf8_bytes utf8_initial (flat_map utf8_encode_scalar cps) = (cps, utf8_initial).
Proof.
  induction cps as [|cp cps IH]; intros H; [reflexivity|].
  cbn [forallb] in H. apply andb_true_iff in H as [Hcp Hcps].
  cbn [flat_map]. rewrite utf8_bytes_app, (utf8_whole cp Hcp). cbn [fst snd].
  now rewrite (IH Hcps).
Qed.

Lemma surrogates_of_scalar (cp : Z) :
  0x10000 <= cp <= 0x10FFFF ->
  utf16_of_scalar cp = [0xD800 + (cp - 0x10000) / 1024; 0xDC00 + (cp - 0x10000) mod 1024]
  /\ is_high_surrogate (0xD800 + (cp - 0x10000) / 1024) = true
  /\ is_low_surrogate (0xDC00 + (cp - 0x10000) mod 1024) = true.
Proof.
  intros H. unfold utf16_of_scalar, is_high_surrogate, is_low_surrogate.
  destruct (Z.ltb_spec cp 0x10000); [lia|].
  change 0x3FF with (Z.ones 10). rewrite land_low, Z.shiftr_div_pow2 by lia.
  change (2 ^ 10) with 1024.
  repeat split; apply andb_true_iff; split; apply Z.leb_le; dlia.
Qed.

Lemma scalars_of_utf16_cons (cp : Z) (rest : jsstring) :
  is_scalar cp = true ->
  scalars_of_utf16 (utf16_of_scalar cp ++ rest) = cp :: scalars_of_utf16 rest.
Proof.
  unfold is_scalar. intros Hs.
  apply andb_true_iff in Hs as [Hrange Hsur].
  apply andb_true_iff in Hrange as [H0 Hmax].
  apply Z.leb_le in H0, Hmax.
  destruct (Z.lt_ge_cases cp 0x10000) as [Hbmp|Hastral].
  - unfold utf16_of_scalar. destruct (Z.ltb_spec cp 0x10000); [|lia].
    cbn [app scalars_of_utf16]. unfold is_high_surrogate, is_low_surrogate.
    destruct (Z.leb_spec 0xD800 cp), (Z.leb_spec cp 0xDBFF), (Z.leb_spec 0xDC00 cp),
      (Z.leb_spec cp 0xDFFF); cbn in *; try reflexivity; try discriminate; lia.
  - destruct (surrogates_of_scalar cp) as (Hu & Hh & Hl); [lia|].
    rewrite Hu. cbn [app scalars_of_utf16]. rewrite Hh, Hl. f_equal.
    rewrite Z.shiftl_mul_pow2 by lia. change (2 ^ 10) with 1024. dlia.
Qed.

Lemma utf16_round_trip (cps : list Z) :
  forallb is_scalar cps = true -> scalars_of_utf16 (utf16_of_scalars cps) = cps.
Proof.
  induction cps as [|cp cps IH]; intros H; [reflexivity|].
  cbn [forallb] in H. apply andb_true_iff in H as [Hcp Hcps].
  unfold utf16_of_scalars in *. cbn [flat_map].
  now rewrite scalars_of_utf16_cons, (IH Hcps).
Qed.

Lemma serialize_kept (cps : list Z) :
  first_is_not_BOM cps = true -> fst (serialize false cps) = cps.
Proof.
  destruct cps as [|c cps]; [reflexivity|]. cbn [first_is_not_BOM serialize].
  intros H. apply negb_true_iff in H. now rewrite H.
Qed.

(** X5.  Text encoded by [TextEncoder] and decoded by a fresh
    [TextDecoder] comes back unchanged, in streaming mode or not, for every
    sequence of scalar values that does not begin with U+FEFF; the bytes are
    the UTF-8 encodings of the scalar values, one after the other, and the
    decoder is left with no open sequence. *)
Theorem text_round_trip (cps : list Z) (stream : bool) :
  forallb is_scalar cps = true -> first_is_not_BOM cps = true ->
  TextEncoder_encode (utf16_of_scalars cps) = flat_map utf8_encode_scalar cps
  /\ fst (TextDecoder_decode new_TextDecoder
            (TextEncoder_encode (utf16_of_scalars cps)) stream)
     = utf16_of_scalars cps
  /\ decoder (snd (TextDecoder_decode new_TextDecoder
                     (TextEncoder_encode (utf16_of_scalars cps)) stream))
     = utf8_initial.
Proof.
  intros Hs Hbom.
  assert (Henc : TextEncoder_encode (utf16_of_scalars cps)
                 = flat_map utf8_encode_scalar cps)
    by (unfold TextEncoder_encode; now rewrite utf16_round_trip).
  split; [exact Henc|]. rewrite Henc.
  unfold TextDecoder_decode. cbn [new_TextDecoder do_not_flush decoder BOM_seen].
  rewrite (utf8_round_trip cps Hs).
  assert (Hend : (if stream then ([], utf8_initial) else utf8_end utf8_initial)
                 = ([], utf8_initial)) by now destruct stream.
  rewrite Hend, app_nil_r.
  pose proof (serialize_kept cps Hbom) as Hser.
  destruct (serialize false cps) as [out seen]. cbn [fst snd decoder] in *.
  subst out. now split.
Qed.

(** "h", U+00E9, U+1F600 round trip. *)
Lemma text_round_trip_witness :
  forallb is_scalar [0x68; 0xE9; 0x1F600] = true
  /\ first_is_not_BOM [0x68; 0xE9; 0x1F600] = true
  /\ fst (TextDecoder_decode new_TextDecoder
            (TextEncoder_encode (utf16_of_scalars [0x68; 0xE9; 0x1F600])) true)
     = utf16_of_scalars [0x68; 0xE9; 0x1F600].
Proof.
  split; [reflexivity|]. split; [reflexivity|].
  exact (proj1 (proj2 (text_round_trip [0x68; 0xE9; 0x1F600] true eq_refl eq_refl))).
Defined.

(* ================================================================== *)
(** ** The cap inside a character *)

Lemma encode_nonempty (cp : Z) : utf8_encode_scalar cp <> [].
Proof.
  unfold utf8_encode_scalar.
  destruct (cp <=? 0x7F), (cp <=? 0x7FF), (cp <=? 0xFFFF); discriminate.
Qed.

Lemma serialize_keeps (td : TextDecoder) (cp : Z) (rest : list Z) :
  keeps_character td cp = true ->
  serialize (BOM_seen (if do_not_flush td then td
                       else mk_decoder utf8_initial false false)) (cp :: rest)
  = (cp :: rest, true).
Proof.
  unfold keeps_character. intros Hkeep. cbn [serialize].
  destruct (do_not_flush td), (cp =? 0xFEFF); cbn in *;
    try rewrite Hkeep; try reflexivity; try discriminate.
  now destruct (BOM_seen td).
Qed.

Lemma idle_decoder (td : TextDecoder) :
  no_open_sequence td = true ->
  bytes_needed (decoder (if do_not_flush td then td
                         else mk_decoder utf8_initial false false)) = 0.
Proof.
  unfold no_open_sequence. intros H.
  destruct (do_not_flush td); cbn in *; [now apply Z.eqb_eq | reflexivity].
Qed.

(** The text of a chunk that begins with a whole character. *)
Lemma decode_leading (td : TextDecoder) (cp : Z) (tail : list Z) :
  no_open_sequence td = true -> is_scalar cp = true -> keeps_character td cp = true ->
  chunk_text td (utf8_encode_scalar cp ++ tail)
  = utf16_of_scalar cp ++ utf16_of_scalars (fst (utf8_bytes utf8_initial tail)).
Proof.
  intros Hidle Hs Hkeep. unfold chunk_text, TextDecoder_decode.
  rewrite (bytes_from_idle _ _ (idle_decoder td Hidle))
    by (intros E; apply app_eq_nil in E as [E _]; now apply encode_nonempty in E).
  rewrite utf8_bytes_app, (utf8_whole cp Hs). cbn [fst snd app].
  destruct (utf8_bytes utf8_initial tail) as [out d]. cbn [fst snd].
  rewrite app_nil_r, (serialize_keeps td cp out Hkeep). reflexivity.
Qed.

(** The text of the chunk that completes a character cut in two and goes
    on with ASCII. *)
Lemma decode_split_tail (td : TextDecoder) (cp : Z) (k : nat) (tail : list Z) :
  is_scalar cp = true -> 0x80 <= cp ->
  (0 < k < List.length (utf8_encode_scalar cp))%nat ->
  no_open_sequence td = true -> keeps_character td cp = true ->
  is_ascii tail = true ->
  chunk_text (decoder_after td (firstn k (utf8_encode_scalar cp)))
             (skipn k (utf8_encode_scalar cp) ++ tail)
  = utf16_of_scalar cp ++ tail.
Proof.
  intros Hs Hm Hk Hidle Hkeep Htail.
  destruct (split_character cp k Hs Hm Hk) as (Hout & Hopen & Hrest). cbv zeta in *.
  assert (Hne : firstn k (utf8_encode_scalar cp) <> []).
  { destruct k; [lia|]. destruct (utf8_encode_scalar cp); [cbn in Hk; lia | discriminate]. }
  unfold chunk_text, decoder_after, TextDecoder_decode.
  rewrite (bytes_from_idle _ _ (idle_decoder td Hidle) Hne).
  destruct (utf8_bytes utf8_initial (firstn k (utf8_encode_scalar cp))) as [out d1].
  cbn [fst snd] in *. subst out. cbn [app serialize fst snd do_not_flush decoder BOM_seen].
  rewrite utf8_bytes_app, Hrest. cbn [fst snd].
  rewrite (utf8_bytes_ascii tail Htail). cbn [fst snd app]. rewrite app_nil_r.
  rewrite (serialize_keeps td cp tail Hkeep). cbn [fst].
  change (utf16_of_scalars (cp :: tail))
    with (utf16_of_scalar cp ++ utf16_of_scalars tail).
  now rewrite (utf16_ascii tail Htail).
Qed.

(** X6.  When one code unit of budget is left and the next chunk begins
    with a character outside the Basic Multilingual Plane, [substring] keeps
    the high surrogate alone and [TextEncoder] turns it into U+FFFD: the
    stream receives the bytes EF BF BD, which the upstream never sent, and is
    closed. *)
Theorem cap_cuts_surrogate_pair (cfg : Config) (r : Relay) (cp : Z) (tail : list Z) :
  is_scalar cp = true -> 0x10000 <= cp ->
  state r = Readable -> no_open_sequence (textDecoder r) = true ->
  totalLength r + 1 = MAX_RESPONSE_LENGTH cfg ->
  on_chunk cfg (utf8_encode_scalar cp ++ tail) r
  = (mk_relay (totalLength r)
              (decoder_after (textDecoder r) (utf8_encode_scalar cp ++ tail))
              (reads r) (enqueued r ++ [[0xEF; 0xBF; 0xBD]]) Closed,
     false).
Proof.
  intros Hs Hastral Hstate Hidle Hcap.
  assert (Hkeep : keeps_character (textDecoder r) cp = true).
  { unfold keeps_character. destruct (Z.eqb_spec cp 0xFEFF); [lia | reflexivity]. }
  pose proof (decode_leading (textDecoder r) cp tail Hidle Hs Hkeep) as Htext.
  assert (Hrange : 0x10000 <= cp <= 0x10FFFF).
  { unfold is_scalar in Hs. apply andb_true_iff in Hs as [Hs _].
    apply andb_true_iff in Hs as [_ Hmax]. apply Z.leb_le in Hmax. lia. }
  destruct (surrogates_of_scalar cp Hrange) as (Hu & Hh & _).
  rewrite Hu in Htext. cbn [app] in Htext.
  rewrite on_chunk_truncate
    by (try assumption; rewrite Htext; unfold js_length; cbn [List.length]; lia).
  rewrite Htext, substring_prefix by lia.
  replace (MAX_RESPONSE_LENGTH cfg - totalLength r) with 1 by lia.
  change (Z.to_nat 1) with 1%nat. cbn [firstn].
  unfold TextEncoder_encode. cbn [scalars_of_utf16]. rewrite Hh. reflexivity.
Qed.

(** U+1F600 and "ok" arrive when nine of the ten code units are used. *)
Lemma cap_cuts_surrogate_pair_witness :
  is_scalar 0x1F600 = true /\ 0x10000 <= 0x1F600
  /\ totalLength (mk_relay 9 new_TextDecoder 1 [lit "abcdefghi"] Readable) + 1
     = MAX_RESPONSE_LENGTH scenario_config
  /\ enqueued (fst (on_chunk scenario_config (utf8_encode_scalar 0x1F600 ++ lit "ok")
                      (mk_relay 9 new_TextDecoder 1 [lit "abcdefghi"] Readable)))
     = [lit "abcdefghi"; [0xEF; 0xBF; 0xBD]].
Proof.
  assert (Ha : 0x10000 <= 0x1F600) by lia.
  split; [reflexivity|]. split; [exact Ha|]. split; [reflexivity|].
  exact (f_equal (fun p => enqueued (fst p))
           (cap_cuts_surrogate_pair scenario_config
              (mk_relay 9 new_TextDecoder 1 [lit "abcdefghi"] Readable)
              0x1F600 (lit "ok") eq_refl Ha eq_refl eq_refl eq_refl)).
Defined.

(** X7.  A character cut in two chunks is repeated when the cap falls
    later in the second chunk.  The first chunk, with the leading bytes, has
    already gone through unchanged; the second is decoded to the whole
    character followed by its ASCII text, trimmed and encoded again, so the
    stream receives the leading bytes once more: what it holds is not a
    prefix of the upstream. *)
Theorem split_character_repeated (cfg : Config) (r : Relay) (cp : Z) (k : nat)
  (tail : list Z) :
  is_scalar cp = true -> 0x80 <= cp ->
  (0 < k < List.length (utf8_encode_scalar cp))%nat ->
  state r = Readable ->
  no_open_sequence (textDecoder r) = true ->
  keeps_character (textDecoder r) cp = true ->
  is_ascii tail = true ->
  totalLength r + js_length (utf16_of_scalar cp) <= MAX_RESPONSE_LENGTH cfg ->
  totalLength r + js_length (utf16_of_scalar cp) + js_length tail
  > MAX_RESPONSE_LENGTH cfg ->
  let bytes := utf8_encode_scalar cp in
  let r1 := fst (on_chunk cfg (firstn k bytes) r) in
  let r2 := fst (on_chunk cfg (skipn k bytes ++ tail) r1) in
  enqueued r2
  = enqueued r
    ++ [firstn k bytes;
        bytes ++ firstn (Z.to_nat (MAX_RESPONSE_LENGTH cfg - totalLength r
                                   - js_length (utf16_of_scalar cp))) tail]
  /\ state r2 = Closed.
Proof.
  intros Hs Hm Hk Hstate Hidle Hkeep Htail Hfit Hover. cbv zeta.
  destruct (decode_split (textDecoder r) cp k Hs Hm Hk Hidle Hkeep) as (H1 & _ & _).
  pose proof (decode_split_tail (textDecoder r) cp k tail Hs Hm Hk Hidle Hkeep Htail)
    as H2.
  pose proof (js_length_nonneg (utf16_of_scalar cp)) as Hlen.
  rewrite (on_chunk_forward cfg (firstn k (utf8_encode_scalar cp)) r)
    by (assumption || (rewrite H1; cbn; lia)).
  cbn [fst]. rewrite H1. change (js_length []) with 0. rewrite Z.add_0_r.
  rewrite on_chunk_truncate
    by (reflexivity || (cbn [totalLength textDecoder]; rewrite H2, js_length_app; lia)).
  cbn [fst totalLength textDecoder enqueued state]. rewrite H2.
  rewrite substring_prefix by lia.
  rewrite firstn_app, (firstn_all2 (utf16_of_scalar cp)) by (unfold js_length in *; lia).
  replace (Z.to_nat (MAX_RESPONSE_LENGTH cfg - totalLength r)
           - List.length (utf16_of_scalar cp))%nat
    with (Z.to_nat (MAX_RESPONSE_LENGTH cfg - totalLength r
                    - js_length (utf16_of_scalar cp)))
    by (unfold js_length; lia).
  unfold TextEncoder_encode. rewrite scalars_of_utf16_cons by exact Hs.
  cbn [flat_map].
  pose proof (encode_ascii _ (is_ascii_firstn
                (Z.to_nat (MAX_RESPONSE_LENGTH cfg - totalLength r
                           - js_length (utf16_of_scalar cp))) tail Htail)) as Henc.
  unfold TextEncoder_encode in Henc. rewrite Henc.
  rewrite <- app_assoc. now split.
Qed.

(** U+00E9 cut after its first byte and followed by "abcdef" under a cap
    of 4: the stream receives C3, then C3 A9 "abc". *)
Lemma split_character_repeated_witness :
  is_scalar 0xE9 = true /\ 0x80 <= 0xE9
  /\ (0 < 1 < List.length (utf8_encode_scalar 0xE9))%nat
  /\ is_ascii (lit "abcdef") = true
  /\ enqueued (fst (on_chunk (mk_config [] 10 4 [] [])
                      (skipn 1 (utf8_encode_scalar 0xE9) ++ lit "abcdef")
                      (fst (on_chunk (mk_config [] 10 4 [] [])
                              (firstn 1 (utf8_encode_scalar 0xE9)) new_Relay))))
     = [[0xC3]; [0xC3; 0xA9; 0x61; 0x62; 0x63]].
Proof.
  assert (Hm : 0x80 <= 0xE9) by lia.
  assert (Hk : (0 < 1 < List.length (utf8_encode_scalar 0xE9))%nat) by (cbn; lia).
  assert (Hfit : totalLength new_Relay + js_length (utf16_of_scalar 0xE9)
                 <= MAX_RESPONSE_LENGTH (mk_config [] 10 4 [] [])) by (cbn; lia).
  assert (Hover : totalLength new_Relay + js_length (utf16_of_scalar 0xE9)
                  + js_length (lit "abcdef")
                  > MAX_RESPONSE_LENGTH (mk_config [] 10 4 [] [])) by reflexivity.
  split; [reflexivity|]. split; [exact Hm|]. split; [exact Hk|]. split; [reflexivity|].
  exact (proj1 (split_character_repeated (mk_config [] 10 4 [] []) new_Relay 0xE9 1
                  (lit "abcdef") eq_refl Hm Hk eq_refl eq_refl eq_refl eq_refl
                  Hfit Hover)).
Defined.

(* ================================================================== *)
(** ** What the handler returns, throws and sends *)

Lemma push_with_key (cfg : Config) (key : jsstring) (upstream : list (list Z))
  (fin : Ending) (r : Relay) :
  push (with_key cfg key) upstream fin r = push cfg upstream fin r.
Proof.
  revert r; induction upstream as [|value rest IH]; intros r; [reflexivity|].
  cbn [push]. change (on_chunk (with_key cfg key) value (reader_read r))
    with (on_chunk cfg value (reader_read r)).
  destruct (on_chunk cfg value (reader_read r)) as [r' [|]]; [apply IH | reflexivity].
Qed.

Lemma start_with_key (cfg : Config) (key : jsstring) (b : option UpstreamBody) :
  start (with_key cfg key) b = start cfg b.
Proof. destruct b as [b|]; [apply push_with_key | reflexivity]. Qed.

Section Outcomes.

Variable StringToNumber : jsstring -> number.
Variable FractionToString : Q -> jsstring.

Local Abbreviation handle := (handleRequest StringToNumber FractionToString).
Local Abbreviation exceeds := (greater_than StringToNumber FractionToString).
Local Abbreviation show := (ToString FractionToString).

(** A comparison that does not throw has an operand that can be printed. *)
Lemma show_defined (v : Value) (m : Z) : exceeds v m <> None -> show v <> None.
Proof.
  unfold greater_than, ToNumber.
  destruct v as [| |b|q|s|items|fields]; try (intros _; discriminate).
  - destruct (show (VArr items)); [intros _; discriminate | intros H; now contradiction H].
  - destruct (show (VObj fields)); [intros _; discriminate | intros H; now contradiction H].
Qed.

Lemma truthy_has_length (prompt : Value) :
  ToBoolean prompt = true -> get_length prompt <> None.
Proof.
  destruct prompt as [| |b|q|s|items|fields]; cbn; try discriminate;
    intros _; try discriminate.
  destruct (own_property fields _); discriminate.
Qed.

(** X8.  The credential reaches the upstream call and nothing else: with
    two credentials, and upstream answers that do not depend on which one was
    sent, the handler settles the same way, reads the body the same way and
    drives the same relay. *)
Theorem key_not_in_response (cfg : Config) (key1 key2 : jsstring)
  (fetch1 fetch2 : FetchCall -> FetchOutcome) (request : Request) :
  (forall prompt,
      fetch1 (upstream_call (with_key cfg key1) prompt)
      = fetch2 (upstream_call (with_key cfg key2) prompt)) ->
  result (handle (with_key cfg key1) fetch1 request)
  = result (handle (with_key cfg key2) fetch2 request)
  /\ relay (handle (with_key cfg key1) fetch1 request)
     = relay (handle (with_key cfg key2) fetch2 request)
  /\ body_read (handle (with_key cfg key1) fetch1 request)
     = body_read (handle (with_key cfg key2) fetch2 request).
Proof.
  intros Hsame. unfold handleRequest.
  cbn [with_key ALLOWED_ORIGIN MAX_PROMPT_LENGTH OPENAI_API_URL OPENAI_API_KEY].
  destruct (strict_neq (origin_header request) (ALLOWED_ORIGIN cfg)); [now repeat split|].
  destruct (jsstring_eqb (method request) (lit "OPTIONS")); [now repeat split|].
  destruct (negb (jsstring_eqb (method request) (lit "POST"))); [now repeat split|].
  destruct (json request) as [body|]; [|now repeat split].
  destruct (get_prompt body) as [prompt|]; [|now repeat split].
  destruct (negb (ToBoolean prompt)); [now repeat split|].
  destruct (get_length prompt) as [len|]; [|now repeat split].
  destruct (exceeds len (MAX_PROMPT_LENGTH cfg)) as [[|]|]; [| |now repeat split].
  - destruct (show len); now repeat split.
  - specialize (Hsame prompt). unfold upstream_call in Hsame.
    cbn [with_key OPENAI_API_URL OPENAI_API_KEY] in Hsame. rewrite Hsame.
    destruct (fetch2 _) as [e|st b]; [now repeat split|].
    destruct (negb (ok st)); [now repeat split|].
    rewrite !start_with_key. now repeat split.
Qed.

Lemma gate_passed (cfg : Config) (fetch : FetchCall -> FetchOutcome)
  (request : Request) (body prompt : Value) :
  origin_header request = Some (ALLOWED_ORIGIN cfg) ->
  method request = lit "POST" ->
  json request = Some body -> get_prompt body = Some prompt ->
  ToBoolean prompt = false ->
  handle cfg fetch request
  = mk_outcome (plain 400 "Bad Request: Missing prompt") true [] None.
Proof.
  intros Ho Hm Hj Hp Hf. unfold handleRequest.
  now rewrite Ho, strict_neq_false, Hm, Hj, Hp, Hf.
Qed.

(** X9.  The promise of [handleRequest] rejects in exactly three
    situations, all of them after the origin and the method have been
    accepted and the body has parsed: the body is [null] (destructuring it
    throws), the comparison of [prompt.length] with the maximum throws (the
    length is an object or an array that cannot be converted to a primitive),
    or [fetch] fails.  Every other request is answered with a response. *)
Theorem handler_rejects_iff (cfg : Config) (fetch : FetchCall -> FetchOutcome)
  (request : Request) :
  (exists e, result (handle cfg fetch request) = Rejects e)
  <-> origin_header request = Some (ALLOWED_ORIGIN cfg)
      /\ method request = lit "POST"
      /\ exists body,
           json request = Some body
           /\ (get_prompt body = None
               \/ exists prompt len,
                    get_prompt body = Some prompt /\ ToBoolean prompt = true
                    /\ get_length prompt = Some len
                    /\ (exceeds len (MAX_PROMPT_LENGTH cfg) = None
                        \/ (exceeds len (MAX_PROMPT_LENGTH cfg) = Some false
                            /\ exists e, fetch (upstream_call cfg prompt)
                                         = NetworkFailure e))).
Proof.
  split.
  - intros [e He].
    destruct (strict_neq (origin_header request) (ALLOWED_ORIGIN cfg)) eqn:Eo.
    { unfold handleRequest in He. rewrite Eo in He. discriminate. }
    assert (Ho : origin_header request = Some (ALLOWED_ORIGIN cfg)).
    { destruct (origin_header request) as [o|]; [|discriminate]. cbn in Eo.
      apply negb_false_iff, jsstring_eqb_eq in Eo. now subst. }
    destruct (jsstring_eqb (method request) (lit "OPTIONS")) eqn:Eopt.
    { unfold handleRequest in He. rewrite Eo, Eopt in He. discriminate. }
    destruct (jsstring_eqb (method request) (lit "POST")) eqn:Em.
    2:{ unfold handleRequest in He. rewrite Eo, Eopt, Em in He. discriminate. }
    apply jsstring_eqb_eq in Em.
    destruct (json request) as [body|] eqn:Ej.
    2:{ unfold handleRequest in He. rewrite Eo, Eopt, Em, Ej in He. discriminate. }
    split; [exact Ho|]. split; [exact Em|]. exists body. split; [reflexivity|].
    destruct (get_prompt body) as [prompt|] eqn:Ep; [|left; reflexivity]. right.
    destruct (ToBoolean prompt) eqn:Et.
    2:{ rewrite (gate_passed cfg fetch request body prompt Ho Em Ej Ep Et) in He.
        discriminate. }
    rewrite (handle_truthy StringToNumber FractionToString cfg fetch request body prompt
               Ho Em Ej Ep Et) in He.
    destruct (get_length prompt) as [len|] eqn:El;
      [|now apply truthy_has_length in Et].
    exists prompt, len. split; [reflexivity|]. split; [exact Et|]. split; [exact El|].
    destruct (exceeds len (MAX_PROMPT_LENGTH cfg)) as [[|]|] eqn:Ee; [| |now left].
    + destruct (show len) eqn:Es; [discriminate|].
      exfalso. apply (show_defined len (MAX_PROMPT_LENGTH cfg)); [|exact Es].
      rewrite Ee. discriminate.
    + right. split; [reflexivity|].
      destruct (fetch (upstream_call cfg prompt)) as [e'|st b]; [now exists e'|].
      destruct (negb (ok st)); discriminate.
  - intros (Ho & Hm & body & Hj & [Hp | (prompt & len & Hp & Ht & Hl & Hcase)]).
    + unfold handleRequest. rewrite Ho, strict_neq_false, Hm, Hj, Hp. cbn. eauto.
    + rewrite (handle_truthy StringToNumber FractionToString cfg fetch request body prompt
                 Ho Hm Hj Hp Ht), Hl.
      destruct Hcase as [He | (He & e & Hf)]; rewrite He; [|rewrite Hf]; cbn; eauto.
Qed.


(** X11.  The handler calls the upstream at most once, and only for a
    truthy prompt of a request whose body it has read.  The call is a POST to
    [OPENAI_API_URL] carrying the bearer credential, and its payload holds the
    prompt as received together with [stream: true]. *)
Theorem upstream_call_once (cfg : Config) (fetch : FetchCall -> FetchOutcome)
  (request : Request) :
  (List.length (fetches (handle cfg fetch request)) <= 1)%nat
  /\ forall call, In call (fetches (handle cfg fetch request)) ->
       fetch_url call = OPENAI_API_URL cfg
       /\ fetch_method call = lit "POST"
       /\ get_header (lit "Authorization") (fetch_headers call)
          = Some (lit "Bearer " ++ OPENAI_API_KEY cfg)
       /\ body_read (handle cfg fetch request) = true
       /\ exists body prompt,
            json request = Some body /\ get_prompt body = Some prompt
            /\ ToBoolean prompt = true
            /\ fetch_body call = VObj [(lit "prompt", prompt); (lit "stream", VBool true)].
Proof.
  pose proof (fetch_needs_every_check StringToNumber FractionToString cfg fetch request)
    as [Hpass _].
  destruct (fetches (handle cfg fetch request)) as [|c rest] eqn:Ef.
  - split; [cbn; lia | intros call []].
  - destruct Hpass as (Ho & Hm & body & prompt & len & Hj & Hp & Ht & Hl & He & Hf);
      [discriminate|].
    injection Hf as -> ->. split; [cbn; lia|].
    intros call [<-|[]]. repeat split.
    + pose proof (handle_truthy StringToNumber FractionToString cfg fetch request body
                    prompt Ho Hm Hj Hp Ht) as Hh.
      rewrite Hl, He in Hh. rewrite Hh.
      destruct (fetch (upstream_call cfg prompt)) as [e|st b]; [reflexivity|].
      now destruct (negb (ok st)).
    + exists body, prompt. now repeat split.
Qed.

(** X14.  The request body is consumed exactly when the origin is the
    allowed one and the method is POST: a request refused for its origin or
    its method, and a preflight request, leave the body unread. *)
Theorem body_read_iff (cfg : Config) (fetch : FetchCall -> FetchOutcome)
  (request : Request) :
  body_read (handle cfg fetch request) = true
  <-> origin_header request = Some (ALLOWED_ORIGIN cfg) /\ method request = lit "POST".
Proof.
  unfold handleRequest.
  destruct (strict_neq (origin_header request) (ALLOWED_ORIGIN cfg)) eqn:Eo.
  { apply strict_neq_true in Eo. cbn. split; [discriminate | intros [Ho _]; contradiction]. }
  assert (Ho : origin_header request = Some (ALLOWED_ORIGIN cfg)).
  { destruct (origin_header request) as [o|]; [|discriminate]. cbn in Eo.
    apply negb_false_iff, jsstring_eqb_eq in Eo. now subst. }
  destruct (jsstring_eqb (method request) (lit "OPTIONS")) eqn:Eopt.
  { apply jsstring_eqb_eq in Eopt. cbn. split; [discriminate|].
    intros [_ Hm]. rewrite Hm in Eopt. discriminate. }
  destruct (jsstring_eqb (method request) (lit "POST")) eqn:Em; cbn [negb].
  2:{ cbn. split; [discriminate|]. intros [_ Hm]. rewrite Hm in Em. discriminate. }
  apply jsstring_eqb_eq in Em.
  assert (Hread : forall o : Outcome, body_read o = true ->
             body_read o = true
             <-> Some (ALLOWED_ORIGIN cfg) = Some (ALLOWED_ORIGIN cfg)
                 /\ method request = lit "POST") by (intros o Hb; now split).
  rewrite Ho.
  destruct (json request) as [body|]; [|now apply Hread].
  destruct (get_prompt body) as [prompt|]; [|now apply Hread].
  destruct (negb (ToBoolean prompt)); [now apply Hread|].
  destruct (get_length prompt) as [len|]; [|now apply Hread].
  destruct (exceeds len (MAX_PROMPT_LENGTH cfg)) as [[|]|]; [| |now apply Hread].
  - destruct (show len); now apply Hread.
  - destruct (fetch _) as [e|st b]; [now apply Hread|].
    destruct (negb (ok st)); now apply Hread.
Qed.

End Outcomes.

(** Scenario A with two credentials against the same streaming upstream. *)
Lemma key_not_in_response_witness :
  (forall prompt,
      answers scenario_C (upstream_call (with_key scenario_config (lit "sk-1")) prompt)
      = answers scenario_C (upstream_call (with_key scenario_config (lit "sk-2")) prompt))
  /\ result (handleRequest no_numeric_string no_fraction
               (with_key scenario_config (lit "sk-1")) (answers scenario_C) scenario_A)
     = result (handleRequest no_numeric_string no_fraction
                 (with_key scenario_config (lit "sk-2")) (answers scenario_C) scenario_A).
Proof.
  assert (H : forall prompt,
             answers scenario_C (upstream_call (with_key scenario_config (lit "sk-1")) prompt)
             = answers scenario_C
                 (upstream_call (with_key scenario_config (lit "sk-2")) prompt))
    by reflexivity.
  split; [exact H|].
  exact (proj1 (key_not_in_response no_numeric_string no_fraction scenario_config
                  (lit "sk-1") (lit "sk-2") (answers scenario_C) (answers scenario_C)
                  scenario_A H)).
Defined.


(* ================================================================== *)
(** ** Chunk boundaries and the byte order mark *)

Lemma serialize_app (seen : bool) (x y : list Z) :
  serialize seen (x ++ y)
  = (fst (serialize seen x) ++ fst (serialize (snd (serialize seen x)) y),
     snd (serialize (snd (serialize seen x)) y)).
Proof.
  destruct x as [|c x].
  - cbn [app serialize fst snd]. now destruct (serialize seen y).
  - cbn [app serialize]. destruct seen; cbn [fst snd].
    + now destruct y.
    + destruct (c =? 0xFEFF); cbn [fst snd]; now destruct y.
Qed.

(** Decoding two chunks one after the other, in streaming mode, gives the
    text of the two chunks put together. *)
Lemma decode_app (td : TextDecoder) (a b : list Z) :
  chunk_text td (a ++ b) = chunk_text td a ++ chunk_text (decoder_after td a) b.
Proof.
  unfold chunk_text, decoder_after, TextDecoder_decode.
  set (td0 := if do_not_flush td then td else mk_decoder utf8_initial false false).
  rewrite utf8_bytes_app.
  destruct (utf8_bytes (decoder td0) a) as [out1 d1]. cbn [fst snd].
  destruct (utf8_bytes d1 b) as [out2 d2] eqn:E2. cbn [fst snd].
  rewrite !app_nil_r, serialize_app.
  destruct (serialize (BOM_seen td0) out1) as [cps1 seen1]. cbn [fst snd].
  cbn [do_not_flush decoder BOM_seen]. rewrite E2, app_nil_r.
  destruct (serialize seen1 out2) as [cps2 seen2]. cbn [fst snd].
  unfold utf16_of_scalars. apply flat_map_app.
Qed.

(** X12.  Where the upstream cuts its bytes into chunks has no effect on
    the counting: the decoded length of a sequence of chunks is the length of
    the text of all their bytes decoded at once.  So two upstreams carrying
    the same bytes reach the cap or not together, and within the cap they
    leave the counter at the same value. *)
Theorem chunking_does_not_matter (cfg : Config) (upstream regrouped : list (list Z))
  (fin : Ending) :
  List.concat upstream = List.concat regrouped ->
  decoded_length new_TextDecoder upstream
  = js_length (chunk_text new_TextDecoder (List.concat upstream))
  /\ decoded_length new_TextDecoder upstream = decoded_length new_TextDecoder regrouped
  /\ (decoded_length new_TextDecoder upstream <= MAX_RESPONSE_LENGTH cfg ->
      totalLength (push cfg upstream fin new_Relay)
      = totalLength (push cfg regrouped fin new_Relay)
      /\ List.concat (enqueued (push cfg upstream fin new_Relay))
         = List.concat (enqueued (push cfg regrouped fin new_Relay))).
Proof.
  assert (Hall : forall (td : TextDecoder) (up : list (list Z)),
             decoded_length td up = js_length (chunk_text td (List.concat up))).
  { intros td up; revert td; induction up as [|v rest IH]; intros td; [reflexivity|].
    cbn [decoded_length List.concat]. now rewrite decode_app, js_length_app, IH. }
  intros Hsame.
  assert (Heq : decoded_length new_TextDecoder upstream
                = decoded_length new_TextDecoder regrouped)
    by now rewrite !Hall, Hsame.
  split; [apply Hall|]. split; [exact Heq|].
  intros Hle. rewrite !push_pump.
  rewrite (pump_within_cap cfg upstream) by (cbn; (reflexivity || lia)).
  rewrite (pump_within_cap cfg regrouped) by (cbn; (reflexivity || lia)).
  cbn [new_Relay totalLength textDecoder enqueued reads app].
  rewrite !at_end_counter. cbn [totalLength]. split; [now rewrite Heq|].
  assert (Henq : forall r : Relay, enqueued (at_end fin r) = enqueued r).
  { intros r. destruct fin; unfold at_end, catch, controller_close, controller_error;
      cbn; now destruct (state r). }
  rewrite !Henq. cbn [enqueued]. exact Hsame.
Qed.

(** U+00E9 "x" in one chunk, and cut inside the character. *)
Lemma chunking_does_not_matter_witness :
  List.concat [[0xC3; 0xA9; 0x78]] = List.concat [[0xC3]; [0xA9; 0x78]]
  /\ decoded_length new_TextDecoder [[0xC3; 0xA9; 0x78]]
     = decoded_length new_TextDecoder [[0xC3]; [0xA9; 0x78]].
Proof.
  split; [reflexivity|].
  exact (proj1 (proj2 (chunking_does_not_matter scenario_config [[0xC3; 0xA9; 0x78]]
                         [[0xC3]; [0xA9; 0x78]] EndOfStream eq_refl))).
Defined.

(** X13.  A byte order mark at the very start of the upstream is passed on
    with its chunk but is not counted: after a first chunk made of EF BB BF
    and ASCII text within the cap, the counter holds the length of the text
    alone. *)
Theorem leading_BOM_not_counted (cfg : Config) (text : list Z) :
  is_ascii text = true -> js_length text <= MAX_RESPONSE_LENGTH cfg ->
  on_chunk cfg ([0xEF; 0xBB; 0xBF] ++ text) new_Relay
  = (mk_relay (js_length text)
              (decoder_after new_TextDecoder ([0xEF; 0xBB; 0xBF] ++ text))
              0 [[0xEF; 0xBB; 0xBF] ++ text] Readable,
     true).
Proof.
  intros Ha Hle.
  assert (Htext : chunk_text new_TextDecoder ([0xEF; 0xBB; 0xBF] ++ text) = text).
  { unfold chunk_text, TextDecoder_decode.
    cbn [new_TextDecoder do_not_flush decoder BOM_seen].
    change [0xEF; 0xBB; 0xBF] with (utf8_encode_scalar 0xFEFF).
    rewrite utf8_bytes_app, (utf8_whole 0xFEFF eq_refl). cbn [fst snd].
    rewrite (utf8_bytes_ascii text Ha). cbn [fst snd app serialize].
    rewrite app_nil_r. change (0xFEFF =? 0xFEFF) with true. cbn [fst].
    now apply utf16_ascii. }
  rewrite on_chunk_forward by (try reflexivity; cbn [new_Relay totalLength textDecoder];
                               rewrite Htext; lia).
  cbn [new_Relay totalLength textDecoder reads enqueued]. now rewrite Htext.
Qed.

(** A mark followed by "abcde" under the cap of 10. *)
Lemma leading_BOM_not_counted_witness :
  is_ascii (lit "abcde") = true
  /\ js_length (lit "abcde") <= MAX_RESPONSE_LENGTH scenario_config
  /\ totalLength (fst (on_chunk scenario_config ([0xEF; 0xBB; 0xBF] ++ lit "abcde")
                         new_Relay)) = 5.
Proof.
  assert (H : js_length (lit "abcde") <= MAX_RESPONSE_LENGTH scenario_config)
    by (cbn; lia).
  split; [reflexivity|]. split; [exact H|].
  exact (f_equal (fun p => totalLength (fst p))
           (leading_BOM_not_counted scenario_config (lit "abcde") eq_refl H)).
Defined.
